(** * adaptiva: an adaptive bit-packed integer array

    Shallow embedding of [adaptiva.c] and the properties of its container
    operations ([init], [deinit], [_get], [_put], [insert], [get], [find],
    [max_value], [min_value]).

    Conventions of the embedding.
    - [int] is a 32-bit two's complement integer, modelled as a [Z] in
      [-2^31, 2^31); [unsigned int] is a [Z] in [0, 2^32); [size_t] is a [Z]
      in [0, 2^64).  Every conversion of the source is written out with
      [to_int], [to_uint] and [to_size_t]; signed arithmetic wraps around and
      [>>] on an [int] is an arithmetic shift, as gcc and clang compile it.
    - The module-level globals of the source are the fields of [state].
    - Undefined behaviour that the properties talk about is a [fault]:
      a shift by a negative amount or by 32 or more ([BadShift]), an access
      outside the buffer ([OutOfBounds]) and a division by zero ([DivByZero]).
    - [malloc] always succeeds.  The block it returns is not initialised, so
      the contents of the block allocated by [init] are an argument of [init];
      the other allocations are cleared by [memset] before they are read. *)

From Stdlib Require Import ZArith Lia Bool List.
From stdpp Require Import base tactics option list.

Local Open Scope Z_scope.

(** ** Machine integers *)

Definition BITS_IN_INT : Z := 32.
Definition SIZEOF_INT : Z := 4.

Definition to_uint (z : Z) : Z := z mod 2 ^ 32.
Definition to_int (z : Z) : Z := (z + 2 ^ 31) mod 2 ^ 32 - 2 ^ 31.
Definition to_size_t (z : Z) : Z := z mod 2 ^ 64.

Definition int_range (z : Z) : Prop := - 2 ^ 31 <= z < 2 ^ 31.
Definition uint_range (z : Z) : Prop := 0 <= z < 2 ^ 32.
Definition size_t_range (z : Z) : Prop := 0 <= z < 2 ^ 64.

(** ** Faults and the error monad *)

Inductive fault : Set := BadShift | OutOfBounds | DivByZero.

Inductive result (A : Type) : Type :=
| Ok (a : A)
| Err (f : fault).
Arguments Ok {A} a.
Arguments Err {A} f.

Definition bind {A B : Type} (m : result A) (k : A -> result B) : result B :=
  match m with
  | Ok a => k a
  | Err f => Err f
  end.

Declare Scope result_scope.
Delimit Scope result_scope with result.
Notation "x <- m ;; k" := (bind m (fun x => k))
  (at level 100, m at next level, right associativity) : result_scope.
Local Open Scope result_scope.

(** A shift is defined for amounts [0 .. 31] only. *)
Definition shift_ok (n : Z) : bool := (0 <=? n) && (n <? BITS_IN_INT).

(** [x << n] and [x >> n] at type [int]. *)
Definition shl_int (x n : Z) : result Z :=
  if shift_ok n then Ok (to_int (Z.shiftl x n)) else Err BadShift.
Definition shr_int (x n : Z) : result Z :=
  if shift_ok n then Ok (Z.shiftr x n) else Err BadShift.

(** [x << n] and [x >> n] at type [unsigned int]. *)
Definition shl_uint (x n : Z) : result Z :=
  if shift_ok n then Ok (to_uint (Z.shiftl x n)) else Err BadShift.
Definition shr_uint (x n : Z) : result Z :=
  if shift_ok n then Ok (Z.shiftr x n) else Err BadShift.

(** [a / b] at type [int] (truncating) and at type [size_t]. *)
Definition div_int (a b : Z) : result Z :=
  if b =? 0 then Err DivByZero else Ok (to_int (Z.quot a b)).
Definition div_size_t (a b : Z) : result Z :=
  if b =? 0 then Err DivByZero else Ok (a / b).
Definition mod_size_t (a b : Z) : result Z :=
  if b =? 0 then Err DivByZero else Ok (a mod b).

(** [__builtin_clz]: the number of leading zero bits of a 32-bit word. *)
Fixpoint clz_from (n : nat) (x : Z) : Z :=
  match n with
  | O => 0
  | S k => if Z.testbit x (Z.of_nat k) then 0 else 1 + clz_from k x
  end.
Definition __builtin_clz (x : Z) : Z := clz_from 32 x.

(** ** The buffer: an array of [unsigned int] *)

Definition in_bounds (buf : list Z) (j : Z) : bool :=
  (0 <=? j) && (j <? Z.of_nat (length buf)).

(** [buf[j]] as an rvalue. *)
Definition buf_read (buf : list Z) (j : Z) : result Z :=
  if in_bounds buf j then
    match buf !! Z.to_nat j with
    | Some w => Ok w
    | None => Err OutOfBounds
    end
  else Err OutOfBounds.

(** [buf[j] = w]. *)
Definition buf_write (buf : list Z) (j w : Z) : result (list Z) :=
  if in_bounds buf j then Ok (<[Z.to_nat j := w]> buf) else Err OutOfBounds.

(** [malloc(bytes)] followed by [memset(_, 0, bytes)]. *)
Definition malloc_zeroed (bytes : Z) : list Z :=
  replicate (Z.to_nat (bytes / SIZEOF_INT)) 0.

(** [memcpy(dst, src, bytes)]. *)
Definition memcpy (dst src : list Z) (bytes : Z) : result (list Z) :=
  let n := Z.to_nat (bytes / SIZEOF_INT) in
  if (n <=? length src)%nat && (n <=? length dst)%nat
  then Ok (take n src ++ drop n dst)
  else Err OutOfBounds.

(** ** The container *)

(** The globals [entropy], [buffer], [size], [allocated], [signed_values]. *)
Record state : Type := mkState {
  entropy : Z;
  buffer : list Z;
  size : Z;
  allocated : Z;
  signed_values : Z
}.

(** [VALS_IN_INT(ent)] is [(BITS_IN_INT / ent)] at type [int]. *)
Definition VALS_IN_INT (ent : Z) : result Z := div_int BITS_IN_INT ent.

(** [init]: the block of [malloc(sizeof(int))] is not cleared; [junk] is the
    word found in it. *)
Definition init (junk : Z) : state :=
  {| entropy := 1;
     size := BITS_IN_INT;
     signed_values := 0;
     buffer := [to_uint junk];
     allocated := SIZEOF_INT |}.

(** [_get]; it reads the global [signed_values], here its first argument. *)
Definition _get (signed_values : Z) (buf : list Z) (index entropy : Z)
  : result Z :=
  vals <- VALS_IN_INT entropy ;;
  j <- div_size_t index (to_size_t vals) ;;
  let j := to_int j in
  off <- mod_size_t index (to_size_t vals) ;;
  let off := to_int off in
  m <- shl_int 1 entropy ;;
  let mask := to_int (m - 1) in
  w <- buf_read buf j ;;
  let v := to_int w in
  v <- shr_int v (to_int (off * entropy)) ;;
  let v := Z.land v mask in
  sign_mask <- shl_int signed_values (to_int (entropy - 1)) ;;
  let v := to_int (Z.lxor v sign_mask - sign_mask) in
  Ok v.

(** [_put]. *)
Definition _put (buf : list Z) (index value entropy : Z) : result (list Z) :=
  vals <- VALS_IN_INT entropy ;;
  j <- div_size_t index (to_size_t vals) ;;
  let j := to_int j in
  off <- mod_size_t index (to_size_t vals) ;;
  let off := to_int off in
  m <- shl_int 1 entropy ;;
  let mask := to_uint (m - 1) in
  v <- buf_read buf j ;;
  clear <- shl_uint mask (to_int (entropy * off)) ;;
  let v := Z.land v (to_uint (Z.lnot clear)) in
  bits <- shl_int value (to_int (entropy * off)) ;;
  let v := Z.lor v (to_uint bits) in
  buf_write buf j v.

(** The width selection at the head of [insert]: the pair
    [(value_entropy, sign_switch)] that reaches the repack test. *)
Definition unsigned_width (value : Z) : result Z :=
  abs_mask <- shr_int value (BITS_IN_INT - 1) ;;
  let magnitude := Z.lxor (to_int (value + abs_mask)) abs_mask in
  Ok (BITS_IN_INT - __builtin_clz (to_uint (Z.lor magnitude 1))).

Definition signed_width (value : Z) : result Z :=
  value_entropy <- unsigned_width value ;;
  Ok (if value <? 0 then to_int (value_entropy + 1) else value_entropy).

Definition select_width (signed_values value : Z) : result (Z * Z) :=
  value_entropy <- signed_width value ;;
  let sign_switch :=
    if (value <? 0) && (signed_values =? 0) then 1 else 0 in
  if value_entropy >? Z.quot BITS_IN_INT 2
  then Ok (BITS_IN_INT - 1, if signed_values =? 0 then 1 else sign_switch)
  else Ok (value_entropy, sign_switch).

(** The loop [for (int i = 0; i < size; i++)] of the repack, started at [i]
    with [n] iterations left. *)
Fixpoint repack_loop (signed_values : Z) (buffer new_buffer : list Z)
    (entropy value_entropy : Z) (i : Z) (n : nat) : result (list Z) :=
  match n with
  | O => Ok new_buffer
  | S n' =>
      v <- _get signed_values buffer (to_size_t i) entropy ;;
      new_buffer <- _put new_buffer (to_size_t i) v value_entropy ;;
      repack_loop signed_values buffer new_buffer entropy value_entropy
        (to_int (i + 1)) n'
  end.

(** "re-adjust previous bits if necessary" *)
Definition repack (st : state) (value_entropy sign_switch : Z) : result state :=
  if (entropy st <? value_entropy) || negb (sign_switch =? 0) then
    vals <- VALS_IN_INT value_entropy ;;
    q <- div_int (size st) vals ;;
    let new_buffer_size := to_int (q + 1) in
    let bytes := to_size_t (SIZEOF_INT * to_size_t new_buffer_size) in
    let new_buffer := malloc_zeroed bytes in
    let allocated := to_int bytes in
    new_buffer <- repack_loop (signed_values st) (buffer st) new_buffer
                    (entropy st) value_entropy 0 (Z.to_nat (size st)) ;;
    Ok {| entropy := value_entropy;
          buffer := new_buffer;
          size := size st;
          allocated := allocated;
          signed_values :=
            if sign_switch =? 0 then signed_values st else 1 |}
  else Ok st.

(** The growth step [if (index >= size) { ... }]. *)
Definition grow (st : state) (index : Z) : result state :=
  if index >=? to_size_t (size st) then
    vals <- VALS_IN_INT (entropy st) ;;
    q <- div_size_t index (to_size_t vals) ;;
    let new_size := to_int (to_size_t (q + 1)) in
    let new_allocated := to_int (to_size_t (SIZEOF_INT * to_size_t new_size)) in
    let new_buffer := malloc_zeroed (to_size_t new_allocated) in
    new_buffer <- memcpy new_buffer (buffer st) (to_size_t (allocated st)) ;;
    Ok {| entropy := entropy st;
          buffer := new_buffer;
          size := to_int (new_size * vals);
          allocated := new_allocated;
          signed_values := signed_values st |}
  else Ok st.

(** [insert]. *)
Definition insert (st : state) (index value : Z) : result state :=
  width <- select_width (signed_values st) value ;;
  let '(value_entropy, sign_switch) := width in
  st <- repack st value_entropy sign_switch ;;
  st <- grow st index ;;
  new_buffer <- _put (buffer st) index value (entropy st) ;;
  Ok {| entropy := entropy st;
        buffer := new_buffer;
        size := size st;
        allocated := allocated st;
        signed_values := signed_values st |}.

(** [get]. *)
Definition get (st : state) (index : Z) : result Z :=
  _get (signed_values st) (buffer st) index (entropy st).

(** The first loop of [find]: [pattern] and [high_bit_mask] after the
    iterations [i, i+1, ...], [n] of them. *)
Fixpoint find_masks (value entropy mask : Z) (i : Z) (n : nat)
    (pattern high_bit_mask : Z) : result (Z * Z) :=
  match n with
  | O => Ok (pattern, high_bit_mask)
  | S n' =>
      p <- shl_int value (to_int (entropy * i)) ;;
      half <- shr_uint mask 1 ;;
      h <- shl_uint half (to_int (entropy * i)) ;;
      find_masks value entropy mask (to_int (i + 1)) n'
        (Z.lor pattern (to_uint p)) (Z.lor high_bit_mask h)
  end.

(** The lane scan [for (int j = 0; j < viint; j++)] inside one word; [Some]
    is the [return] of the source. *)
Fixpoint find_lane (packed value entropy mask viint : Z) (i : Z) (j : Z)
    (n : nat) : result (option Z) :=
  match n with
  | O => Ok None
  | S n' =>
      lane <- shr_int packed (to_int (entropy * j)) ;;
      if Z.land (to_uint lane) mask =? to_uint value
      then Ok (Some (to_size_t (to_int (to_int (i * viint) + j))))
      else find_lane packed value entropy mask viint i (to_int (j + 1)) n'
  end.

(** The candidate filter on one word: the value of [matches] that is
    tested by [if (matches)]. *)
Definition word_matches (packed pattern high_bit_mask big_mask : Z) : Z :=
  let match_ := Z.lxor (to_uint packed) pattern in
  let sum := to_uint (Z.land match_ high_bit_mask + high_bit_mask) in
  let matches :=
    to_int (to_uint (Z.lnot (Z.lor (Z.lor sum match_) high_bit_mask))) in
  to_int (Z.land (to_uint matches) big_mask).

(** The word scan [for (int i = 0; i < n; i++)]. *)
Fixpoint find_words (buf : list Z) (value entropy mask viint : Z)
    (pattern high_bit_mask big_mask : Z) (i : Z) (n : nat) : result Z :=
  match n with
  | O => Ok (to_size_t (-1))
  | S n' =>
      w <- buf_read buf i ;;
      let packed := to_int w in
      let continue :=
        find_words buf value entropy mask viint pattern high_bit_mask
          big_mask (to_int (i + 1)) n' in
      if word_matches packed pattern high_bit_mask big_mask =? 0
      then continue
      else
        r <- find_lane packed value entropy mask viint i 0 (Z.to_nat viint) ;;
        match r with
        | Some index => Ok index
        | None => continue
        end
  end.

(** [find]; the result is a [size_t], [to_size_t (-1)] for "not found". *)
Definition find (st : state) (value : Z) : result Z :=
  viint <- VALS_IN_INT (entropy st) ;;
  m <- shl_int 1 (entropy st) ;;
  let mask := to_uint (m - 1) in
  bm <- shr_int (Z.lnot 0)
          (to_int (BITS_IN_INT - to_int (viint * entropy st))) ;;
  let big_mask := to_uint bm in
  masks <- find_masks value (entropy st) mask 0 (Z.to_nat viint) 0 0 ;;
  let '(pattern, high_bit_mask) := masks in
  let n := to_int (to_size_t (allocated st) / SIZEOF_INT) in
  find_words (buffer st) value (entropy st) mask viint
    pattern high_bit_mask big_mask 0 (Z.to_nat n).

(** A run of insertions, left to right, from a given state. *)
Fixpoint inserts (st : state) (ops : list (Z * Z)) : result state :=
  match ops with
  | [] => Ok st
  | (index, value) :: ops => st <- insert st index value ;; inserts st ops
  end.

(** ** Vocabulary of the properties *)

(** The width selection clamps: it answers [BITS_IN_INT - 1]. *)
Definition clamps (signed_values value : Z) : Prop :=
  exists sign_switch,
    select_width signed_values value = Ok (BITS_IN_INT - 1, sign_switch).

(** The width of the magnitude alone exceeds half a word. *)
Definition wider_than_half (value : Z) : Prop :=
  exists w, unsigned_width value = Ok w /\ w > BITS_IN_INT / 2.

(** Bits needed for [|value|], and one more for the sign of a negative. *)
Definition bits_of_magnitude (value : Z) : Z := Z.log2 (Z.abs value) + 1.
Definition bits_with_sign (value : Z) : Z :=
  bits_of_magnitude value + (if value <? 0 then 1 else 0).

(** The [k]-th lane of word [w] at width [e]: bits [e*k .. e*k + e - 1]. *)
Definition lane (e w k : Z) : Z := Z.land (Z.shiftr w (e * k)) (Z.ones e).

(** What [_get] makes of the contents [x] of a lane: the sign extension
    [(x ^ sign_mask) - sign_mask]. *)
Definition decode (signed_values e x : Z) : Z :=
  let sign_mask := to_int (Z.shiftl signed_values (e - 1)) in
  to_int (Z.lxor x sign_mask - sign_mask).

(** The lane that holds logical index [index] in a buffer packed at [e]. *)
Definition raw_lane (e : Z) (buf : list Z) (index : Z) : Z :=
  lane e (nth (Z.to_nat (index / (32 / e))) buf 0) (index mod (32 / e)).

(** The result of [find] for "not found": [(size_t)-1]. *)
Definition NOT_FOUND : Z := to_size_t (-1).

(** Lanes backed by the allocation: allocated words times lanes per word. *)
Definition allocated_lanes (st : state) : Z :=
  (allocated st / SIZEOF_INT) * (BITS_IN_INT / entropy st).

(** The invariants of the data model. *)
Definition entropy_ok (st : state) : Prop :=
  1 <= entropy st <= BITS_IN_INT - 1.

Definition capacity_ok (st : state) : Prop :=
  allocated_lanes st >= size st.

(** Sizes and indices up to which no [int] of the source overflows. *)
Definition MAX_SIZE : Z := 2 ^ 28.

Definition index_ok (index : Z) : Prop :=
  0 <= index /\ index + BITS_IN_INT <= MAX_SIZE.

(** A well-formed container: the invariants above, the bookkeeping of
    [allocated], and an allocation of at most one word beyond [size]. *)
Record wf (st : state) : Prop := mkWf {
  wf_entropy : entropy_ok st;
  wf_signed : signed_values st = 0 \/ signed_values st = 1;
  wf_size : 0 <= size st <= MAX_SIZE;
  wf_allocated : allocated st = SIZEOF_INT * Z.of_nat (length (buffer st));
  wf_capacity : capacity_ok st;
  wf_tight :
    allocated st / SIZEOF_INT <= size st / (BITS_IN_INT / entropy st) + 1
}.

(** [m] performs no bad shift and its result, if there is one, satisfies [P]. *)
Definition no_bad_shift {A : Type} (P : A -> Prop) (m : result A) : Prop :=
  match m with
  | Ok a => P a
  | Err f => f <> BadShift
  end.

(** Loop invariants of the first loop of [find]: [high_bit_mask] never
    covers the top bit of a lane, and after [i] iterations the lanes below
    [i] of [pattern] hold [value] and the others are empty. *)
Definition top_clear (e h : Z) : Prop :=
  forall k, 0 <= k < 32 / e -> Z.testbit h (e * k + e - 1) = false.

Definition pattern_upto (e value i pattern : Z) : Prop :=
  forall k r, 0 <= k < 32 / e -> 0 <= r < e ->
    Z.testbit pattern (r + e * k) = (k <? i) && Z.testbit value r.

(** [find] answers the lowest index below [bound] at which [get] reads [v],
    and [NOT_FOUND] when there is none. *)
Definition finds_lowest (bound : Z) (st : state) (v : Z) : Prop :=
  exists r, find st v = Ok r /\
    ((r = NOT_FOUND /\ forall i, 0 <= i < bound -> get st i <> Ok v) \/
     (0 <= r < bound /\ get st r = Ok v /\
      forall i, 0 <= i < r -> get st i <> Ok v)).

(** [find] answers [NOT_FOUND] or an index below [bound]. *)
Definition finds_below (bound : Z) (st : state) (v : Z) : Prop :=
  exists r, find st v = Ok r /\ (r = NOT_FOUND \/ 0 <= r < bound).

(** Insertions that write every index [0 .. 31]: [first] at index 0, then
    [rest] at the indices [1 .. 31]. *)
Definition fill (first rest : Z) : list (Z * Z) :=
  (0, first) :: map (fun i => (Z.of_nat i, rest)) (seq 1 31).

(** Two small containers, the states reached from [init 0] by the insertions
    shown: an unsigned one and a signed one. *)
Definition unsigned_sample : state :=
  Eval vm_compute in
    match inserts (init 0) [(0, 5); (1, 7); (2, 5); (3, 7)] with
    | Ok st => st
    | Err _ => init 0
    end.

Definition signed_sample : state :=
  Eval vm_compute in
    match inserts (init 0) [(0, -3); (1, 2); (2, -3); (3, 2)] with
    | Ok st => st
    | Err _ => init 0
    end.

(** Closes the goals that a concrete container leaves: equalities and
    comparisons of numerals, and choices between them. *)
Ltac concrete :=
  vm_compute;
  repeat match goal with
         | |- _ /\ _ => split
         | |- _ = _ => reflexivity
         | |- _ <> _ => discriminate
         | |- _ -> False => discriminate
         | |- _ \/ _ => (left; reflexivity) || (right; reflexivity)
         end.

(** ** The rest of the container's interface *)

(** [deinit]: the buffer is freed and the pointer set to [NULL], here the
    buffer without a word: every access to it is [OutOfBounds].  The other
    globals keep their values. *)
Definition deinit (st : state) : state :=
  {| entropy := entropy st;
     buffer := [];
     size := size st;
     allocated := allocated st;
     signed_values := signed_values st |}.

(** The loop of [max_value], started at [i] with [n] iterations left. *)
Fixpoint max_loop (st : state) (max i : Z) (n : nat) : result Z :=
  match n with
  | O => Ok max
  | S n' =>
      v <- _get (signed_values st) (buffer st) (to_size_t i) (entropy st) ;;
      max_loop st (if max <? v then v else max) (to_int (i + 1)) n'
  end.

(** [max_value]; the accumulator starts at [(unsigned) (1 << 31)] converted
    to [int], the least [int]. *)
Definition max_value (st : state) : result Z :=
  top <- shl_int 1 (BITS_IN_INT - 1) ;;
  max_loop st (to_int (to_uint top)) 0 (Z.to_nat (size st)).

(** The loop of [min_value]. *)
Fixpoint min_loop (st : state) (min i : Z) (n : nat) : result Z :=
  match n with
  | O => Ok min
  | S n' =>
      v <- _get (signed_values st) (buffer st) (to_size_t i) (entropy st) ;;
      min_loop st (if min >? v then v else min) (to_int (i + 1)) n'
  end.

(** [min_value]; the accumulator starts at [(unsigned) (1 << 31) - 1]
    converted to [int], the greatest [int]. *)
Definition min_value (st : state) : result Z :=
  top <- shl_int 1 (BITS_IN_INT - 1) ;;
  min_loop st (to_int (to_uint (to_uint top - 1))) 0 (Z.to_nat (size st)).

(** The insertion loops of [main]: [insert(i, f i)] for [i = 0 .. n-1]. *)
Definition ascending (f : Z -> Z) (n : nat) : list (Z * Z) :=
  map (fun i => (Z.of_nat i, f (Z.of_nat i))) (seq 0 n).

(** The values that [_get] can answer at width [e]: [0 .. 2^e - 1] in
    unsigned mode, [-2^(e-1) .. 2^(e-1) - 1] in signed mode. *)
Definition representable (signed_values e x : Z) : Prop :=
  if signed_values =? 0 then 0 <= x < 2 ^ e
  else - 2 ^ (e - 1) <= x < 2 ^ (e - 1).

(** The values that [insert] stores so that [get] reads them back, told
    from the container before the insertion. *)
Definition storable (st : state) (v : Z) : Prop :=
  - 2 ^ 30 <= v < 0 \/
  2 ^ 16 <= v < 2 ^ 30 \/
  (0 <= v < 2 ^ 16 /\
   (signed_values st = 0 \/ v < 2 ^ (entropy st - 1))).

(** The width that [insert] selects for [v], and whether the insertion
    re-encodes the container. *)
Definition selected_width (v : Z) : Z :=
  if bits_with_sign v >? 16 then 31 else bits_with_sign v.

Definition switches_sign (st : state) (v : Z) : bool :=
  (signed_values st =? 0) && ((v <? 0) || (bits_with_sign v >? 16)).

(** A signed container, reached from [init 0] by the insertions shown,
    and the same container after [deinit]. *)
Definition wide_sample : state :=
  Eval vm_compute in
    match inserts (init 0) [(0, 9); (40, -70000); (3, 12)] with
    | Ok st => st
    | Err _ => init 0
    end.

(** * Properties *)

(** ** Conversions between the integer types *)

Lemma to_int_id z : int_range z -> to_int z = z.
Proof.
  unfold int_range, to_int. intros H.
  rewrite Z.mod_small by lia. lia.
Qed.

Lemma to_uint_id z : uint_range z -> to_uint z = z.
Proof. unfold uint_range, to_uint. intros H. now rewrite Z.mod_small. Qed.

Lemma to_size_t_id z : size_t_range z -> to_size_t z = z.
Proof. unfold size_t_range, to_size_t. intros H. now rewrite Z.mod_small. Qed.

Lemma to_int_range z : int_range (to_int z).
Proof.
  unfold int_range, to_int.
  pose proof (Z.mod_pos_bound (z + 2 ^ 31) (2 ^ 32)). lia.
Qed.

(** The low 32 bits survive every conversion. *)
Lemma to_uint_testbit z p : 0 <= p < 32 -> Z.testbit (to_uint z) p = Z.testbit z p.
Proof. intros H. unfold to_uint. apply Z.mod_pow2_bits_low. lia. Qed.

Lemma to_uint_to_int z : to_uint (to_int z) = to_uint z.
Proof.
  unfold to_uint, to_int.
  rewrite <- (Z.mod_add (_ - _) 1 (2 ^ 32)) by lia.
  replace ((z + 2 ^ 31) mod 2 ^ 32 - 2 ^ 31 + 1 * 2 ^ 32)
    with ((z + 2 ^ 31) mod 2 ^ 32 + 2 ^ 31) by lia.
  rewrite Z.add_mod_idemp_l by lia.
  replace (z + 2 ^ 31 + 2 ^ 31) with (z + 1 * 2 ^ 32) by lia.
  now rewrite Z.mod_add by lia.
Qed.

Lemma to_int_testbit z p : 0 <= p < 32 -> Z.testbit (to_int z) p = Z.testbit z p.
Proof.
  intros H. rewrite <- (to_uint_testbit (to_int z)) by lia.
  rewrite to_uint_to_int. now apply to_uint_testbit.
Qed.

(** ** The checked operations succeed inside their domain *)

Lemma shift_ok_true n : 0 <= n < 32 -> shift_ok n = true.
Proof. unfold shift_ok, BITS_IN_INT. lia. Qed.

Lemma shl_int_ok x n : 0 <= n < 32 -> shl_int x n = Ok (to_int (Z.shiftl x n)).
Proof. intros H. unfold shl_int. now rewrite shift_ok_true. Qed.

Lemma shr_int_ok x n : 0 <= n < 32 -> shr_int x n = Ok (Z.shiftr x n).
Proof. intros H. unfold shr_int. now rewrite shift_ok_true. Qed.

Lemma shl_uint_ok x n : 0 <= n < 32 -> shl_uint x n = Ok (to_uint (Z.shiftl x n)).
Proof. intros H. unfold shl_uint. now rewrite shift_ok_true. Qed.

Lemma shr_uint_ok x n : 0 <= n < 32 -> shr_uint x n = Ok (Z.shiftr x n).
Proof. intros H. unfold shr_uint. now rewrite shift_ok_true. Qed.

Lemma div_size_t_ok a b : b <> 0 -> div_size_t a b = Ok (a / b).
Proof. intros H. unfold div_size_t. now destruct (Z.eqb_spec b 0). Qed.

Lemma mod_size_t_ok a b : b <> 0 -> mod_size_t a b = Ok (a mod b).
Proof. intros H. unfold mod_size_t. now destruct (Z.eqb_spec b 0). Qed.

Lemma div_int_ok a b :
  0 <= a < 2 ^ 31 -> 0 < b -> div_int a b = Ok (a / b).
Proof.
  intros Ha Hb. unfold div_int. destruct (Z.eqb_spec b 0); [lia|].
  rewrite Z.quot_div_nonneg by lia.
  rewrite to_int_id; [done|].
  unfold int_range. pose proof (Z.div_pos a b).
  assert (a / b <= a) by (apply Z.div_le_upper_bound; nia). lia.
Qed.

(** ** Lanes per word *)

Section Lanes.
Variable e : Z.
Hypothesis He : 1 <= e <= 31.

Lemma VALS_IN_INT_ok : VALS_IN_INT e = Ok (32 / e).
Proof. unfold VALS_IN_INT, BITS_IN_INT. apply div_int_ok; lia. Qed.

Lemma vals_pos : 1 <= 32 / e <= 32.
Proof.
  split.
  - apply Z.div_le_lower_bound; lia.
  - apply Z.div_le_upper_bound; lia.
Qed.

Lemma vals_fit : 32 / e * e <= 32.
Proof. pose proof (Z.mul_div_le 32 e). lia. Qed.

Lemma vals_tight : 32 < (32 / e + 1) * e.
Proof. pose proof (Z.mul_succ_div_gt 32 e). lia. Qed.

Lemma lane_offset_fits k : 0 <= k < 32 / e -> 0 <= e * k /\ e * k + e <= 32.
Proof. pose proof vals_fit. nia. Qed.
End Lanes.

(** ** Width selection *)

Lemma clz_from_log2 n x :
  0 < x < 2 ^ Z.of_nat n -> clz_from n x = Z.of_nat n - 1 - Z.log2 x.
Proof.
  induction n as [|k IH]; intros Hx.
  - simpl in Hx. lia.
  - cbn [clz_from].
    assert (Hk : 0 <= Z.of_nat k) by lia.
    replace (Z.of_nat (S k)) with (Z.of_nat k + 1) in * by lia.
    rewrite Z.pow_add_r in Hx by lia. change (2 ^ 1) with 2 in Hx.
    destruct (Z.testbit x (Z.of_nat k)) eqn:Hb.
    + assert (2 ^ Z.of_nat k <= x).
      { destruct (Z.lt_ge_cases x (2 ^ Z.of_nat k)) as [Hlt|]; [|done].
        rewrite (Z.bits_above_log2 x) in Hb; [done|lia|].
        apply Z.log2_lt_pow2; lia. }
      assert (Z.log2 x = Z.of_nat k); [|lia].
      apply Z.log2_unique; [lia|]. rewrite Z.pow_succ_r by lia. lia.
    + assert (x < 2 ^ Z.of_nat k).
      { destruct (Z.lt_ge_cases x (2 ^ Z.of_nat k)) as [|Hge]; [done|].
        assert (Z.log2 x = Z.of_nat k) as Hl.
        { apply Z.log2_unique; [lia|]. rewrite Z.pow_succ_r by lia. lia. }
        rewrite <- Hl, Z.bit_log2 in Hb by lia. done. }
      rewrite IH by lia. lia.
Qed.

Lemma clz_log2 x : 0 < x < 2 ^ 32 -> __builtin_clz x = 31 - Z.log2 x.
Proof. intros H. unfold __builtin_clz. now rewrite clz_from_log2. Qed.

Lemma log2_lor_1 m : 0 <= m -> Z.log2 (Z.lor m 1) = Z.log2 m.
Proof.
  intros Hm. rewrite Z.log2_lor by lia. change (Z.log2 1) with 0.
  pose proof (Z.log2_nonneg m). lia.
Qed.

Lemma lor_1_bounds m : 0 <= m < 2 ^ 31 -> 0 < Z.lor m 1 < 2 ^ 31.
Proof.
  intros Hm.
  assert (0 <= Z.lor m 1) by (apply Z.lor_nonneg; lia).
  assert (Z.lor m 1 <> 0).
  { intros Hz. apply Z.lor_eq_0_iff in Hz. lia. }
  split; [lia|].
  apply Z.log2_lt_cancel. rewrite log2_lor_1 by lia.
  change (Z.log2 (2 ^ 31)) with 31.
  destruct (Z.eq_dec m 0) as [->|]; [done|].
  apply Z.log2_lt_pow2; lia.
Qed.

Lemma unsigned_width_spec v :
  int_range v -> unsigned_width v = Ok (bits_of_magnitude v).
Proof.
  unfold int_range, unsigned_width, bits_of_magnitude, BITS_IN_INT.
  intros Hv. rewrite shr_int_ok by lia. cbn [bind].
  rewrite Z.shiftr_div_pow2 by lia. change (32 - 1) with 31.
  destruct (Z.lt_ge_cases v 0) as [Hneg|Hpos].
  - replace (v / 2 ^ 31) with (-1)
      by (apply Z.div_unique with (v + 2 ^ 31); lia).
    rewrite Z.lxor_m1_r. unfold Z.lnot.
    destruct (Z.eq_dec v (- 2 ^ 31)) as [->|Hmin]; [done|].
    rewrite to_int_id by (unfold int_range; lia).
    replace (Z.pred (- (v + -1))) with (- v) by lia.
    rewrite Z.abs_neq by lia.
    pose proof (lor_1_bounds (- v)).
    rewrite to_uint_id by (unfold uint_range; lia).
    rewrite clz_log2 by lia. rewrite log2_lor_1 by lia. f_equal. lia.
  - rewrite Z.div_small by lia. rewrite Z.add_0_r, Z.lxor_0_r.
    rewrite to_int_id by (unfold int_range; lia).
    rewrite Z.abs_eq by lia.
    pose proof (lor_1_bounds v).
    rewrite to_uint_id by (unfold uint_range; lia).
    rewrite clz_log2 by lia. rewrite log2_lor_1 by lia. f_equal. lia.
Qed.

Lemma bits_of_magnitude_range v : int_range v -> 1 <= bits_of_magnitude v <= 32.
Proof.
  unfold int_range, bits_of_magnitude. intros Hv.
  pose proof (Z.log2_nonneg (Z.abs v)).
  assert (Z.log2 (Z.abs v) <= Z.log2 (2 ^ 31)) by (apply Z.log2_le_mono; lia).
  change (Z.log2 (2 ^ 31)) with 31 in *. lia.
Qed.

Lemma signed_width_spec v :
  int_range v -> signed_width v = Ok (bits_with_sign v).
Proof.
  intros Hv. unfold signed_width, bits_with_sign.
  rewrite unsigned_width_spec by done. cbn [bind].
  pose proof (bits_of_magnitude_range v Hv).
  destruct (v <? 0); [|f_equal; lia].
  rewrite to_int_id by (unfold int_range; lia). done.
Qed.

Lemma bits_with_sign_range v : int_range v -> 1 <= bits_with_sign v <= 33.
Proof.
  intros Hv. pose proof (bits_of_magnitude_range v Hv).
  unfold bits_with_sign. destruct (v <? 0); lia.
Qed.

(** What [select_width] answers, by cases on the clamp test. *)
Lemma select_width_spec s v :
  int_range v ->
  select_width s v =
    Ok (if bits_with_sign v >? 16
        then (31, if s =? 0 then 1 else 0)
        else (bits_with_sign v, if (v <? 0) && (s =? 0) then 1 else 0)).
Proof.
  intros Hv. unfold select_width. rewrite signed_width_spec by done.
  cbn [bind]. change (Z.quot BITS_IN_INT 2) with 16.
  change (BITS_IN_INT - 1) with 31.
  destruct (bits_with_sign v >? 16); [|done].
  destruct (s =? 0); [done|]. now rewrite andb_false_r.
Qed.

Lemma select_width_range s v :
  int_range v ->
  exists e sw,
    select_width s v = Ok (e, sw) /\ 1 <= e <= 31 /\ (sw = 0 \/ sw = 1).
Proof.
  intros Hv. rewrite select_width_spec by done.
  pose proof (bits_with_sign_range v Hv).
  destruct (Z.gtb_spec (bits_with_sign v) 16).
  - eexists _, _. split; [done|]. split; [lia|]. destruct (s =? 0); auto.
  - eexists _, _. split; [done|]. split; [lia|].
    destruct ((v <? 0) && (s =? 0)); auto.
Qed.

(** The values whose width, sign bit included, exceeds half a word. *)
Lemma bits_with_sign_wide v :
  bits_with_sign v > 16 <-> 2 ^ 16 <= v \/ v <= - 2 ^ 15.
Proof.
  unfold bits_with_sign, bits_of_magnitude.
  destruct (Z.ltb_spec v 0) as [Hneg|Hpos].
  - rewrite Z.abs_neq by lia.
    pose proof (Z.log2_le_pow2 (- v) 15 ltac:(lia)). lia.
  - rewrite Z.abs_eq by lia.
    destruct (Z.eq_dec v 0) as [->|Hnz]; [cbn; lia|].
    pose proof (Z.log2_le_pow2 v 16 ltac:(lia)). lia.
Qed.

(** ** Bits, lanes and masks *)

Lemma to_int_add_idemp a b : to_int (to_int a + b) = to_int (a + b).
Proof.
  unfold to_int. f_equal.
  replace ((a + 2 ^ 31) mod 2 ^ 32 - 2 ^ 31 + b + 2 ^ 31)
    with ((a + 2 ^ 31) mod 2 ^ 32 + b) by lia.
  rewrite Z.add_mod_idemp_l by lia. f_equal. lia.
Qed.

Lemma to_uint_add_idemp a b : to_uint (to_int a + b) = to_uint (a + b).
Proof.
  rewrite <- to_uint_to_int, to_int_add_idemp. apply to_uint_to_int.
Qed.

Lemma pow2_le_31 e : 0 <= e <= 31 -> 0 < 2 ^ e <= 2 ^ 31.
Proof.
  intros He. split; [apply Z.pow_pos_nonneg; lia|].
  apply Z.pow_le_mono_r; lia.
Qed.

(** [(1 << entropy) - 1] is the mask of the low [entropy] bits, at type
    [int] and at type [unsigned int]. *)
Lemma int_mask e :
  1 <= e <= 31 -> to_int (to_int (Z.shiftl 1 e) - 1) = Z.ones e.
Proof.
  intros He. rewrite Z.shiftl_1_l, Z.ones_equiv.
  replace (to_int (2 ^ e) - 1) with (to_int (2 ^ e) + -1) by lia.
  rewrite to_int_add_idemp. pose proof (pow2_le_31 e).
  apply to_int_id. unfold int_range. lia.
Qed.

Lemma uint_mask e :
  1 <= e <= 31 -> to_uint (to_int (Z.shiftl 1 e) - 1) = Z.ones e.
Proof.
  intros He. rewrite Z.shiftl_1_l, Z.ones_equiv.
  replace (to_int (2 ^ e) - 1) with (to_int (2 ^ e) + -1) by lia.
  rewrite to_uint_add_idemp. pose proof (pow2_le_31 e).
  apply to_uint_id. unfold uint_range. lia.
Qed.

Lemma lane_testbit e w k i :
  0 <= e -> 0 <= i ->
  Z.testbit (lane e w k) i = (i <? e) && Z.testbit w (i + e * k).
Proof.
  intros He Hi. unfold lane.
  rewrite Z.land_spec, Z.shiftr_spec, Z.testbit_ones_nonneg by lia.
  apply andb_comm.
Qed.

Lemma lane_range e w k : 0 <= e -> 0 <= lane e w k < 2 ^ e.
Proof.
  intros He. unfold lane. rewrite Z.land_ones by lia.
  apply Z.mod_pos_bound. apply Z.pow_pos_nonneg; lia.
Qed.

Lemma lane_to_int e w k :
  0 <= e -> 0 <= k -> e * k + e <= 32 -> lane e (to_int w) k = lane e w k.
Proof.
  intros He Hk Hfit. apply Z.bits_inj'. intros i Hi.
  rewrite !lane_testbit by lia.
  destruct (Z.ltb_spec i e); [|done]. cbn [andb].
  apply to_int_testbit. nia.
Qed.

(** A value below [2^n] has no bit at or above [n]. *)
Lemma testbit_small x n i : 0 <= x < 2 ^ n -> n <= i -> Z.testbit x i = false.
Proof.
  intros Hx Hi. destruct (Z.eq_dec x 0) as [->|]; [apply Z.bits_0|].
  apply Z.bits_above_log2; [lia|].
  assert (0 <= n).
  { destruct (Z.lt_ge_cases n 0); [|done]. rewrite Z.pow_neg_r in Hx; lia. }
  assert (Z.log2 x < n) by (apply Z.log2_lt_pow2; lia). lia.
Qed.

Lemma lane_eq_iff e w k v :
  0 <= e -> 0 <= v < 2 ^ e ->
  lane e w k = v <->
  forall r, 0 <= r < e -> Z.testbit w (r + e * k) = Z.testbit v r.
Proof.
  intros He Hv. split.
  - intros <- r Hr. rewrite lane_testbit by lia.
    destruct (Z.ltb_spec r e); [done|lia].
  - intros Hbits. apply Z.bits_inj'. intros i Hi.
    rewrite lane_testbit by lia. destruct (Z.ltb_spec i e).
    + cbn [andb]. apply Hbits. lia.
    + symmetry. apply (testbit_small v e); lia.
Qed.

(** *** Sign extension *)

Lemma land_pow2_small x n : 0 <= n -> 0 <= x < 2 ^ n -> Z.land x (2 ^ n) = 0.
Proof.
  intros Hn Hx. apply Z.bits_inj'. intros i Hi.
  rewrite Z.land_spec, Z.bits_0, Z.pow2_bits_eqb by lia.
  destruct (Z.eqb_spec n i) as [<-|]; [|apply andb_false_r].
  rewrite (testbit_small x n) by lia. done.
Qed.

Lemma lxor_pow2_small x n : 0 <= n -> 0 <= x < 2 ^ n -> Z.lxor x (2 ^ n) = x + 2 ^ n.
Proof.
  intros Hn Hx. symmetry. apply Z.add_nocarry_lxor. now apply land_pow2_small.
Qed.

Lemma lxor_pow2_large x n :
  0 <= n -> 2 ^ n <= x < 2 ^ (n + 1) -> Z.lxor x (2 ^ n) = x - 2 ^ n.
Proof.
  intros Hn Hx. rewrite Z.pow_add_r in Hx by lia. change (2 ^ 1) with 2 in Hx.
  replace x with (Z.lxor (x - 2 ^ n) (2 ^ n)) at 1.
  - rewrite Z.lxor_assoc, Z.lxor_nilpotent. apply Z.lxor_0_r.
  - rewrite lxor_pow2_small by lia. lia.
Qed.

Lemma decode_unsigned e x : 1 <= e <= 31 -> 0 <= x < 2 ^ e -> decode 0 e x = x.
Proof.
  intros He Hx. unfold decode. rewrite Z.shiftl_0_l. change (to_int 0) with 0.
  rewrite Z.lxor_0_r, Z.sub_0_r. pose proof (pow2_le_31 e).
  apply to_int_id. unfold int_range. lia.
Qed.

Lemma decode_signed e x :
  1 <= e <= 31 -> 0 <= x < 2 ^ e ->
  decode 1 e x = if x <? 2 ^ (e - 1) then x else x - 2 ^ e.
Proof.
  intros He Hx. unfold decode. rewrite Z.shiftl_1_l.
  pose proof (pow2_le_31 e). pose proof (pow2_le_31 (e - 1)).
  assert (2 ^ e = 2 * 2 ^ (e - 1)) as Hd.
  { rewrite <- Z.pow_succ_r by lia. f_equal. lia. }
  assert (2 ^ (e - 1) < 2 ^ 31) by (apply Z.pow_lt_mono_r; lia).
  rewrite (to_int_id (2 ^ (e - 1))) by (unfold int_range; lia).
  destruct (Z.ltb_spec x (2 ^ (e - 1))).
  - rewrite lxor_pow2_small by lia.
    replace (x + 2 ^ (e - 1) - 2 ^ (e - 1)) with x by lia.
    apply to_int_id. unfold int_range. lia.
  - rewrite lxor_pow2_large by (replace (e - 1 + 1) with e by lia; lia).
    rewrite to_int_id by (unfold int_range; lia). lia.
Qed.

(** On the values that the current encoding represents, reading a lane
    back gives [v] exactly when the lane holds [v]. *)
Lemma decode_eq_iff s e x v :
  1 <= e <= 31 -> 0 <= x < 2 ^ e ->
  s = 0 \/ (s = 1 /\ 0 <= v < 2 ^ (e - 1)) ->
  decode s e x = v <-> x = v.
Proof.
  intros He Hx [->|[-> Hv]].
  - now rewrite decode_unsigned.
  - rewrite decode_signed by done.
    assert (2 ^ e = 2 * 2 ^ (e - 1)).
    { rewrite <- Z.pow_succ_r by lia. f_equal. lia. }
    destruct (Z.ltb_spec x (2 ^ (e - 1))); lia.
Qed.

(** ** The bit codec *)

Lemma buf_read_ok buf j w :
  0 <= j -> buf !! Z.to_nat j = Some w -> buf_read buf j = Ok w.
Proof.
  intros Hj Hw. unfold buf_read, in_bounds.
  apply lookup_lt_Some in Hw as Hlt.
  destruct (Z.leb_spec 0 j); [|lia].
  destruct (Z.ltb_spec j (Z.of_nat (length buf))); [|lia].
  cbn [andb]. now rewrite Hw.
Qed.

Lemma buf_read_lt buf j :
  0 <= j < Z.of_nat (length buf) ->
  exists w, buf !! Z.to_nat j = Some w /\ buf_read buf j = Ok w.
Proof.
  intros Hj. destruct (lookup_lt_is_Some_2 buf (Z.to_nat j)) as [w Hw]; [lia|].
  exists w. split; [done|]. apply buf_read_ok; [lia|done].
Qed.

Lemma buf_write_ok buf j w :
  0 <= j < Z.of_nat (length buf) ->
  buf_write buf j w = Ok (<[Z.to_nat j := w]> buf).
Proof.
  intros Hj. unfold buf_write, in_bounds.
  destruct (Z.leb_spec 0 j); [|lia].
  destruct (Z.ltb_spec j (Z.of_nat (length buf))); [|lia]. done.
Qed.

Lemma index_split e index :
  1 <= e <= 31 -> 0 <= index < 2 ^ 31 ->
  0 <= index / (32 / e) < 2 ^ 31 /\ 0 <= index mod (32 / e) < 32 / e.
Proof.
  intros He Hi. pose proof (vals_pos e He). split.
  - split; [apply Z.div_pos; lia|].
    apply Z.le_lt_trans with index; [|lia].
    apply Z.div_le_upper_bound; nia.
  - apply Z.mod_pos_bound. lia.
Qed.

Lemma _get_spec s buf index e w :
  1 <= e <= 31 -> 0 <= index < 2 ^ 31 ->
  buf !! Z.to_nat (index / (32 / e)) = Some w ->
  _get s buf index e = Ok (decode s e (lane e w (index mod (32 / e)))).
Proof.
  intros He Hi Hw. unfold _get.
  pose proof (vals_pos e He) as Hv.
  destruct (index_split e index He Hi) as [Hj Hoff].
  pose proof (lane_offset_fits e He _ Hoff) as Hfit.
  rewrite VALS_IN_INT_ok by done. cbn [bind].
  rewrite (to_size_t_id (32 / e)) by (unfold size_t_range; lia).
  rewrite div_size_t_ok, mod_size_t_ok by lia. cbn [bind].
  rewrite shl_int_ok by lia. cbn [bind]. rewrite int_mask by done.
  rewrite (to_int_id (index / _)) by (unfold int_range; lia).
  rewrite (buf_read_ok _ _ w); [|lia|done]. cbn [bind].
  rewrite (to_int_id (index mod _)) by (unfold int_range; lia).
  rewrite (to_int_id (_ * e)) by (unfold int_range; nia).
  rewrite shr_int_ok by nia. cbn [bind].
  rewrite (to_int_id (e - 1)) by (unfold int_range; lia).
  rewrite shl_int_ok by lia. cbn [bind].
  unfold decode. rewrite (Z.mul_comm _ e).
  fold (lane e (to_int w) (index mod (32 / e))).
  rewrite lane_to_int by lia. done.
Qed.

(** *** No shift of the codec leaves the word

    Whatever the index and the buffer, with [1 <= entropy <= 31] the only
    fault left to [_get] and [_put] is an access outside the buffer. *)

Lemma bind_no_bad_shift {A B} (m : result A) (k : A -> result B) :
  m <> Err BadShift ->
  (forall a, m = Ok a -> k a <> Err BadShift) ->
  bind m k <> Err BadShift.
Proof.
  destruct m as [a|f]; cbn; intros Hm Hk; [now apply Hk|].
  intros [= ->]. now apply Hm.
Qed.

Lemma buf_read_no_bad_shift buf j : buf_read buf j <> Err BadShift.
Proof. unfold buf_read. destruct (in_bounds buf j), (buf !! Z.to_nat j); done. Qed.

Lemma buf_write_no_bad_shift buf j w : buf_write buf j w <> Err BadShift.
Proof. unfold buf_write. destruct (in_bounds buf j); done. Qed.

Lemma lane_shift_fits e index :
  1 <= e <= 31 ->
  0 <= index mod (32 / e) * e < 32 /\ 0 <= e * (index mod (32 / e)) < 32.
Proof.
  intros He. pose proof (vals_pos e He).
  assert (0 <= index mod (32 / e) < 32 / e) as Hoff
    by (apply Z.mod_pos_bound; lia).
  pose proof (lane_offset_fits e He _ Hoff). lia.
Qed.

Lemma _get_no_bad_shift s buf index e :
  1 <= e <= 31 -> _get s buf index e <> Err BadShift.
Proof.
  intros He. unfold _get.
  pose proof (vals_pos e He) as Hv.
  destruct (lane_shift_fits e index He) as [Hs _].
  rewrite VALS_IN_INT_ok by done. cbn [bind].
  rewrite (to_size_t_id (32 / e)) by (unfold size_t_range; lia).
  rewrite div_size_t_ok, mod_size_t_ok by lia. cbn [bind].
  rewrite shl_int_ok by lia. cbn [bind].
  apply bind_no_bad_shift; [apply buf_read_no_bad_shift|]. intros w _.
  assert (0 <= index mod (32 / e) < 32)
    by (pose proof (Z.mod_pos_bound index (32 / e)); lia).
  rewrite (to_int_id (index mod _)) by (unfold int_range; lia).
  rewrite (to_int_id (_ * e)) by (unfold int_range; lia).
  rewrite shr_int_ok by lia. cbn [bind].
  rewrite (to_int_id (e - 1)) by (unfold int_range; lia).
  rewrite shl_int_ok by lia. done.
Qed.

Lemma _put_no_bad_shift buf index value e :
  1 <= e <= 31 -> _put buf index value e <> Err BadShift.
Proof.
  intros He. unfold _put.
  pose proof (vals_pos e He) as Hv.
  destruct (lane_shift_fits e index He) as [_ Hs].
  rewrite VALS_IN_INT_ok by done. cbn [bind].
  rewrite (to_size_t_id (32 / e)) by (unfold size_t_range; lia).
  rewrite div_size_t_ok, mod_size_t_ok by lia. cbn [bind].
  rewrite shl_int_ok by lia. cbn [bind].
  apply bind_no_bad_shift; [apply buf_read_no_bad_shift|]. intros w _.
  assert (0 <= index mod (32 / e) < 32)
    by (pose proof (Z.mod_pos_bound index (32 / e)); lia).
  rewrite (to_int_id (index mod _)) by (unfold int_range; lia).
  rewrite (to_int_id (e * _)) by (unfold int_range; lia).
  rewrite shl_uint_ok, shl_int_ok by lia. cbn [bind].
  apply buf_write_no_bad_shift.
Qed.

(** [_put] succeeds on a word of the buffer and keeps the buffer's length. *)
Lemma _put_ok buf index value e :
  1 <= e <= 31 -> 0 <= index < 2 ^ 31 ->
  index / (32 / e) < Z.of_nat (length buf) ->
  exists buf', _put buf index value e = Ok buf' /\ length buf' = length buf.
Proof.
  intros He Hi Hlen. unfold _put.
  pose proof (vals_pos e He) as Hv.
  destruct (index_split e index He Hi) as [Hj Hoff].
  destruct (lane_shift_fits e index He) as [_ Hs].
  rewrite VALS_IN_INT_ok by done. cbn [bind].
  rewrite (to_size_t_id (32 / e)) by (unfold size_t_range; lia).
  rewrite div_size_t_ok, mod_size_t_ok by lia. cbn [bind].
  rewrite shl_int_ok by lia. cbn [bind].
  rewrite (to_int_id (index / _)) by (unfold int_range; lia).
  destruct (buf_read_lt buf (index / (32 / e))) as (w & _ & ->); [lia|].
  cbn [bind].
  rewrite (to_int_id (index mod _)) by (unfold int_range; lia).
  rewrite (to_int_id (e * _)) by (unfold int_range; lia).
  rewrite shl_uint_ok, shl_int_ok by lia. cbn [bind].
  rewrite buf_write_ok by lia. eexists. split; [done|].
  apply length_insert.
Qed.

Lemma _get_ok s buf index e :
  1 <= e <= 31 -> 0 <= index < 2 ^ 31 ->
  index / (32 / e) < Z.of_nat (length buf) ->
  exists v, _get s buf index e = Ok v /\ int_range v.
Proof.
  intros He Hi Hlen.
  destruct (index_split e index He Hi) as [Hj Hoff].
  destruct (lookup_lt_is_Some_2 buf (Z.to_nat (index / (32 / e)))) as [w Hw]; [lia|].
  rewrite (_get_spec s buf index e w) by done.
  eexists. split; [done|]. apply to_int_range.
Qed.

(** A value that fits the lane is written to its lane alone: the other
    lanes of the word, and the other words, keep their contents.  (The
    value is not masked, so this needs [0 <= value < 2^entropy].) *)
Lemma _put_fitting_value buf index value e w :
  1 <= e <= 31 -> 0 <= index < 2 ^ 31 ->
  buf !! Z.to_nat (index / (32 / e)) = Some w ->
  0 <= value < 2 ^ e ->
  exists w',
    _put buf index value e = Ok (<[Z.to_nat (index / (32 / e)) := w']> buf) /\
    lane e w' (index mod (32 / e)) = value /\
    forall k, 0 <= k < 32 / e -> k <> index mod (32 / e) ->
              lane e w' k = lane e w k.
Proof.
  intros He Hi Hw Hv. unfold _put.
  pose proof (vals_pos e He) as Hvals.
  destruct (index_split e index He Hi) as [Hj Hoff].
  pose proof (lane_offset_fits e He _ Hoff) as Hfit.
  apply lookup_lt_Some in Hw as Hlen.
  rewrite VALS_IN_INT_ok by done. cbn [bind].
  rewrite (to_size_t_id (32 / e)) by (unfold size_t_range; lia).
  rewrite div_size_t_ok, mod_size_t_ok by lia. cbn [bind].
  rewrite shl_int_ok by lia. cbn [bind]. rewrite uint_mask by done.
  rewrite (to_int_id (index / _)) by (unfold int_range; lia).
  rewrite (buf_read_ok _ _ w); [|lia|done]. cbn [bind].
  rewrite (to_int_id (index mod _)) by (unfold int_range; lia).
  rewrite (to_int_id (e * _)) by (unfold int_range; lia).
  rewrite shl_uint_ok by lia. cbn [bind].
  rewrite shl_int_ok by lia. cbn [bind].
  rewrite buf_write_ok by lia.
  set (off := index mod (32 / e)) in *.
  eexists. split; [done|].
  assert (Hbits : forall k r, 0 <= k < 32 / e -> 0 <= r < e ->
    Z.testbit
      (Z.lor (Z.land w (to_uint (Z.lnot (to_uint (Z.shiftl (Z.ones e) (e * off))))))
             (to_uint (to_int (Z.shiftl value (e * off)))))
      (r + e * k)
    = if k =? off then Z.testbit value r else Z.testbit w (r + e * k)).
  { intros k r Hk Hr. pose proof (lane_offset_fits e He k Hk).
    rewrite Z.lor_spec, Z.land_spec.
    rewrite !to_uint_testbit, to_int_testbit, Z.lnot_spec by lia.
    rewrite to_uint_testbit, !Z.shiftl_spec by lia.
    destruct (Z.eqb_spec k off) as [->|Hne].
    - replace (r + e * off - e * off) with r by lia.
      rewrite Z.ones_spec_low by lia. cbn. now rewrite andb_false_r.
    - destruct (Z.lt_ge_cases k off).
      + assert (e * (k + 1) <= e * off) by (apply Z.mul_le_mono_nonneg_l; lia).
        rewrite !(Z.testbit_neg_r _ (r + e * k - e * off)) by lia.
        cbn. now rewrite andb_true_r, orb_false_r.
      + assert (e * (off + 1) <= e * k) by (apply Z.mul_le_mono_nonneg_l; lia).
        rewrite Z.ones_spec_high by lia.
        rewrite (testbit_small value e) by (done || lia).
        cbn. now rewrite andb_true_r, orb_false_r. }
  split.
  - apply lane_eq_iff; [lia|done|]. intros r Hr.
    rewrite Hbits by done. now rewrite Z.eqb_refl.
  - intros k Hk Hne. apply Z.bits_inj'. intros i Hi'.
    rewrite !lane_testbit by lia.
    destruct (Z.ltb_spec i e); [|done]. cbn [andb].
    rewrite Hbits by lia. destruct (Z.eqb_spec k off); [lia|done].
Qed.

(** ** Well-formed containers *)

Lemma wf_words st :
  wf st -> allocated st / SIZEOF_INT = Z.of_nat (length (buffer st)).
Proof.
  intros [_ _ _ Ha _ _]. rewrite Ha. unfold SIZEOF_INT.
  rewrite Z.mul_comm. apply Z.div_mul. lia.
Qed.

Lemma wf_lanes_bound st :
  wf st -> size st <= allocated_lanes st <= MAX_SIZE + 32.
Proof.
  intros Hwf. destruct Hwf as [He _ Hs _ Hc Ht].
  unfold capacity_ok, allocated_lanes, entropy_ok, BITS_IN_INT in *.
  pose proof (vals_pos (entropy st) He).
  pose proof (Z.mul_div_le (size st) (32 / entropy st)). nia.
Qed.

(** An index below the allocated lanes lies in a word of the buffer. *)
Lemma wf_word_of_index st index :
  wf st -> 0 <= index < allocated_lanes st ->
  0 <= index < 2 ^ 31 /\
  index / (32 / entropy st) < Z.of_nat (length (buffer st)).
Proof.
  intros Hwf Hi. pose proof (wf_lanes_bound st Hwf) as Hb.
  pose proof (wf_words st Hwf) as Hw. destruct Hwf as [He _ _ _ _ _].
  unfold allocated_lanes, entropy_ok, BITS_IN_INT, MAX_SIZE in *.
  pose proof (vals_pos (entropy st) He). split; [lia|].
  apply Z.div_lt_upper_bound; [lia|]. rewrite <- Hw. lia.
Qed.

Lemma init_wf junk : wf (init junk).
Proof.
  split; unfold entropy_ok, capacity_ok, allocated_lanes, MAX_SIZE, init,
    BITS_IN_INT, SIZEOF_INT; cbn [entropy buffer size allocated signed_values length];
    try lia.
  all: change (4 / 4) with 1; change (32 / 1) with 32;
    change (32 / 32) with 1; lia.
Qed.

Lemma malloc_zeroed_length n :
  0 <= n -> length (malloc_zeroed (SIZEOF_INT * n)) = Z.to_nat n.
Proof.
  intros Hn. unfold malloc_zeroed, SIZEOF_INT. rewrite length_replicate.
  f_equal. rewrite Z.mul_comm. apply Z.div_mul. lia.
Qed.

(** *** The repack *)

Lemma repack_loop_ok s buf e ve sz n : forall i new_buffer,
  1 <= e <= 31 -> 1 <= ve <= 31 ->
  0 <= i -> i + Z.of_nat n = sz -> sz <= MAX_SIZE ->
  sz <= Z.of_nat (length buf) * (32 / e) ->
  sz <= Z.of_nat (length new_buffer) * (32 / ve) ->
  exists new_buffer',
    repack_loop s buf new_buffer e ve i n = Ok new_buffer' /\
    length new_buffer' = length new_buffer.
Proof.
  induction n as [|n IH]; intros i nb He Hve Hi Hn Hsz Hbuf Hnb.
  - eexists. split; done.
  - cbn [repack_loop]. unfold MAX_SIZE in Hsz.
    pose proof (vals_pos e He). pose proof (vals_pos ve Hve).
    rewrite (to_size_t_id i) by (unfold size_t_range; lia).
    destruct (_get_ok s buf i e) as (v & -> & _); [done|lia| |].
    { apply Z.div_lt_upper_bound; lia. }
    cbn [bind].
    destruct (_put_ok nb i v ve) as (nb' & -> & Hlen); [done|lia| |].
    { apply Z.div_lt_upper_bound; lia. }
    cbn [bind]. rewrite (to_int_id (i + 1)) by (unfold int_range; lia).
    destruct (IH (i + 1) nb') as (nb'' & -> & Hlen'); try done; try lia.
    eexists. split; [done|]. congruence.
Qed.

Lemma repack_wf st ve sw :
  wf st -> 1 <= ve <= 31 -> sw = 0 \/ sw = 1 ->
  exists st',
    repack st ve sw = Ok st' /\ wf st' /\ size st' = size st /\
    (entropy st' = entropy st \/ entropy st' = ve).
Proof.
  intros Hwf Hve Hsw. unfold repack.
  destruct ((entropy st <? ve) || negb (sw =? 0)) eqn:Htest;
    [|exists st; auto].
  pose proof (wf_words st Hwf) as Hwords.
  destruct Hwf as [He Hs Hsz Ha Hc Ht].
  unfold entropy_ok, capacity_ok, allocated_lanes, BITS_IN_INT, MAX_SIZE in *.
  pose proof (vals_pos ve Hve) as Hv.
  rewrite VALS_IN_INT_ok by done. cbn [bind].
  rewrite div_int_ok by lia. cbn [bind].
  set (q := size st / (32 / ve)).
  assert (0 <= q <= size st) as Hq.
  { subst q. split; [apply Z.div_pos; lia|].
    apply Z.div_le_upper_bound; nia. }
  rewrite (to_int_id (q + 1)) by (unfold int_range; lia).
  rewrite (to_size_t_id (q + 1)) by (unfold size_t_range; lia).
  rewrite (to_size_t_id (SIZEOF_INT * _)) by (unfold size_t_range, SIZEOF_INT; lia).
  assert (size st < (q + 1) * (32 / ve)) as Hcover.
  { subst q. pose proof (Z.mul_succ_div_gt (size st) (32 / ve)). lia. }
  destruct (repack_loop_ok (signed_values st) (buffer st) (entropy st) ve
              (size st) (Z.to_nat (size st)) 0
              (malloc_zeroed (SIZEOF_INT * (q + 1))))
    as (nb & -> & Hlen); try done; try lia.
  { unfold MAX_SIZE. lia. }
  { rewrite malloc_zeroed_length by lia. lia. }
  cbn [bind]. rewrite malloc_zeroed_length in Hlen by lia.
  eexists. split; [done|]. split; [|cbn; auto].
  assert (to_int (SIZEOF_INT * (q + 1)) = SIZEOF_INT * (q + 1)) as Hal
    by (apply to_int_id; unfold int_range, SIZEOF_INT; lia).
  split; unfold entropy_ok, capacity_ok, allocated_lanes, BITS_IN_INT, MAX_SIZE;
    cbn [entropy buffer size allocated signed_values]; rewrite ?Hal, ?Hlen.
  - lia.
  - destruct (sw =? 0); auto.
  - lia.
  - lia.
  - unfold SIZEOF_INT. rewrite (Z.mul_comm 4), Z.div_mul by lia. lia.
  - unfold SIZEOF_INT. rewrite (Z.mul_comm 4), Z.div_mul by lia. lia.
Qed.

(** *** The growth step *)

Lemma memcpy_ok dst src bytes :
  0 <= bytes ->
  bytes / SIZEOF_INT <= Z.of_nat (length src) ->
  bytes / SIZEOF_INT <= Z.of_nat (length dst) ->
  exists buf, memcpy dst src bytes = Ok buf /\ length buf = length dst.
Proof.
  intros Hb Hsrc Hdst. unfold memcpy.
  assert (0 <= bytes / SIZEOF_INT) by (apply Z.div_pos; unfold SIZEOF_INT; lia).
  destruct (Nat.leb_spec (Z.to_nat (bytes / SIZEOF_INT)) (length src)); [|lia].
  destruct (Nat.leb_spec (Z.to_nat (bytes / SIZEOF_INT)) (length dst)); [|lia].
  eexists. split; [done|].
  rewrite length_app, length_take, length_drop. lia.
Qed.

Lemma grow_wf st index :
  wf st -> index_ok index ->
  exists st',
    grow st index = Ok st' /\ wf st' /\ index < size st' /\
    entropy st' = entropy st.
Proof.
  intros Hwf [Hi Hmax]. unfold grow.
  pose proof (wf_words st Hwf) as Hwords.
  pose proof Hwf as [He Hs Hsz Ha Hc Ht].
  unfold entropy_ok, capacity_ok, allocated_lanes, BITS_IN_INT, MAX_SIZE in *.
  rewrite (to_size_t_id (size st)) by (unfold size_t_range; lia).
  destruct (Z.geb_spec index (size st)) as [Hge|Hlt];
    [|exists st; split; [done|]; split; [done|]; split; [lia|done]].
  pose proof (vals_pos (entropy st) He) as Hv.
  rewrite VALS_IN_INT_ok by done. cbn [bind].
  rewrite (to_size_t_id (32 / _)) by (unfold size_t_range; lia).
  rewrite div_size_t_ok by lia. cbn [bind].
  set (vals := 32 / entropy st) in *.
  set (q := index / vals).
  assert (0 <= q <= index) as Hq.
  { subst q. split; [apply Z.div_pos; lia|].
    apply Z.div_le_upper_bound; nia. }
  assert (q * vals <= index < (q + 1) * vals) as Hcover.
  { subst q. pose proof (Z.mul_div_le index vals).
    pose proof (Z.mul_succ_div_gt index vals). lia. }
  assert (size st / vals <= q) as Hmono
    by (subst q; apply Z.div_le_mono; lia).
  rewrite (to_size_t_id (q + 1)) by (unfold size_t_range; lia).
  rewrite (to_int_id (q + 1)) by (unfold int_range; lia).
  rewrite (to_size_t_id (q + 1)) by (unfold size_t_range; lia).
  rewrite (to_size_t_id (SIZEOF_INT * _)) by (unfold size_t_range, SIZEOF_INT; lia).
  rewrite (to_int_id (SIZEOF_INT * _)) by (unfold int_range, SIZEOF_INT; lia).
  rewrite (to_size_t_id (SIZEOF_INT * _)) by (unfold size_t_range, SIZEOF_INT; lia).
  rewrite (to_size_t_id (allocated st)) by (unfold size_t_range, SIZEOF_INT in *; lia).
  destruct (memcpy_ok (malloc_zeroed (SIZEOF_INT * (q + 1))) (buffer st)
              (allocated st)) as (nb & -> & Hlen).
  { unfold SIZEOF_INT in *. lia. }
  { lia. }
  { rewrite malloc_zeroed_length by lia. lia. }
  cbn [bind]. rewrite malloc_zeroed_length in Hlen by lia.
  assert (to_int ((q + 1) * vals) = (q + 1) * vals) as Hsize
    by (apply to_int_id; unfold int_range; nia).
  eexists. split; [done|].
  split; [|cbn [entropy buffer size allocated signed_values]; split; [lia|done]].
  split; unfold entropy_ok, capacity_ok, allocated_lanes, BITS_IN_INT, MAX_SIZE;
    cbn [entropy buffer size allocated signed_values];
    fold vals; rewrite ?Hsize, ?Hlen.
  - lia.
  - done.
  - nia.
  - lia.
  - unfold SIZEOF_INT. rewrite (Z.mul_comm 4), Z.div_mul by lia. lia.
  - unfold SIZEOF_INT. rewrite (Z.mul_comm 4), Z.div_mul by lia.
    rewrite Z.div_mul by lia. lia.
Qed.

(** *** [insert] *)

Lemma insert_wf st index value :
  wf st -> index_ok index -> int_range value ->
  exists st',
    insert st index value = Ok st' /\ wf st' /\ index < size st'.
Proof.
  intros Hwf Hidx Hv. unfold insert.
  destruct (select_width_range (signed_values st) value Hv)
    as (ve & sw & -> & Hve & Hsw). cbn [bind].
  destruct (repack_wf st ve sw Hwf Hve Hsw) as (st1 & -> & Hwf1 & _ & _).
  cbn [bind].
  destruct (grow_wf st1 index Hwf1 Hidx) as (st2 & -> & Hwf2 & Hlt & _).
  cbn [bind].
  pose proof (wf_lanes_bound st2 Hwf2) as Hb.
  destruct (wf_word_of_index st2 index Hwf2) as [Hi Hj];
    [destruct Hidx; lia|].
  destruct (_put_ok (buffer st2) index value (entropy st2))
    as (nb & -> & Hlen); [apply Hwf2|done|done|].
  cbn [bind]. eexists. split; [done|]. split; [|done].
  destruct Hwf2 as [He Hs Hsz Ha Hc Ht].
  split; unfold entropy_ok, capacity_ok, allocated_lanes in *;
    cbn [entropy buffer size allocated signed_values]; try done.
  now rewrite Hlen.
Qed.

(** X17.  Every run of insertions at indices and values in range, from a
    well-formed container, returns, and the container it reaches is
    well-formed. *)
Lemma inserts_wf ops : forall st,
  wf st -> Forall (fun op => index_ok (fst op) /\ int_range (snd op)) ops ->
  exists st', inserts st ops = Ok st' /\ wf st'.
Proof.
  induction ops as [|[index value] ops IH]; intros st Hwf Hops.
  - exists st. split; done.
  - apply Forall_cons in Hops as [[Hidx Hv] Hops]. cbn [inserts].
    destruct (insert_wf st index value Hwf Hidx Hv) as (st1 & -> & Hwf1 & _).
    cbn [bind]. now apply IH.
Qed.

(** The sign mode is never left: [insert] writes [signed_values] only to
    set it. *)
Lemma insert_keeps_signed st index value st' :
  insert st index value = Ok st' ->
  signed_values st = 1 -> signed_values st' = 1.
Proof.
  unfold insert. intros Hins Hs.
  destruct (select_width (signed_values st) value) as [[ve sw]|]; [|done].
  cbn [bind] in Hins.
  destruct (repack st ve sw) as [st1|] eqn:Hrepack; [|done].
  cbn [bind] in Hins.
  destruct (grow st1 index) as [st2|] eqn:Hgrow; [|done].
  cbn [bind] in Hins.
  destruct (_put (buffer st2) index value (entropy st2)) as [nb|]; [|done].
  cbn [bind] in Hins. injection Hins as <-. cbn [signed_values].
  assert (signed_values st1 = 1) as Hs1.
  { unfold repack in Hrepack.
    destruct ((entropy st <? ve) || negb (sw =? 0)); [|congruence].
    destruct (VALS_IN_INT ve) as [vals|]; [|done]. cbn [bind] in Hrepack.
    destruct (div_int (size st) vals) as [q|]; [|done]. cbn [bind] in Hrepack.
    destruct (repack_loop _ _ _ _ _ _ _) as [nb'|]; [|done].
    cbn [bind] in Hrepack. injection Hrepack as <-. cbn [signed_values].
    destruct (sw =? 0); done. }
  unfold grow in Hgrow.
  destruct (index >=? to_size_t (size st1)); [|congruence].
  destruct (VALS_IN_INT (entropy st1)) as [vals|]; [|done]. cbn [bind] in Hgrow.
  destruct (div_size_t index (to_size_t vals)) as [q|]; [|done].
  cbn [bind] in Hgrow.
  destruct (memcpy _ _ _) as [nb'|]; [|done].
  cbn [bind] in Hgrow. injection Hgrow as <-. done.
Qed.

(** ** The parallel search *)

(** *** The masks *)

Lemma big_mask_all_ones n : 0 <= n -> to_uint (Z.shiftr (Z.lnot 0) n) = Z.ones 32.
Proof.
  intros Hn. change (Z.lnot 0) with (-1).
  replace (Z.shiftr (-1) n) with (-1); [done|].
  apply Z.bits_inj'. intros i Hi.
  now rewrite Z.shiftr_spec, !Z.bits_m1 by lia.
Qed.

Lemma half_mask_testbit e m :
  0 <= e -> Z.testbit (Z.shiftr (Z.ones e) 1) m = (0 <=? m) && (m + 1 <? e).
Proof.
  intros He. destruct (Z.leb_spec 0 m).
  - rewrite Z.shiftr_spec, Z.testbit_ones_nonneg by lia. done.
  - now rewrite Z.testbit_neg_r by lia.
Qed.

Lemma find_masks_spec value e n : forall i pattern hbm,
  1 <= e <= 31 -> 0 <= i -> i + Z.of_nat n = 32 / e ->
  top_clear e hbm ->
  (0 <= value < 2 ^ e -> pattern_upto e value i pattern) ->
  exists p h,
    find_masks value e (Z.ones e) i n pattern hbm = Ok (p, h) /\
    top_clear e h /\
    (0 <= value < 2 ^ e -> pattern_upto e value (32 / e) p).
Proof.
  induction n as [|n IH]; intros i pattern hbm He Hi Hn Hh Hp.
  - replace (32 / e) with i by lia. eexists _, _. split; done.
  - cbn [find_masks]. pose proof (vals_pos e He).
    assert (0 <= i < 32 / e) as Hlane by lia.
    pose proof (lane_offset_fits e He i Hlane) as Hfit.
    rewrite (to_int_id (e * i)) by (unfold int_range; lia).
    rewrite shl_int_ok by lia. cbn [bind].
    rewrite shr_uint_ok by lia. cbn [bind].
    rewrite shl_uint_ok by lia. cbn [bind].
    rewrite (to_int_id (i + 1)) by (unfold int_range; lia).
    apply IH; [done|lia|lia| |].
    + intros k Hk. pose proof (lane_offset_fits e He k Hk).
      rewrite Z.lor_spec, Hh by done. cbn [orb].
      rewrite to_uint_testbit, Z.shiftl_spec, half_mask_testbit by lia.
      destruct (Z.leb_spec 0 (e * k + e - 1 - e * i)); [|done].
      destruct (Z.ltb_spec (e * k + e - 1 - e * i + 1) e); [|done].
      destruct (Z.lt_ge_cases k i); nia.
    + intros Hv k r Hk Hr. pose proof (lane_offset_fits e He k Hk).
      rewrite Z.lor_spec, (Hp Hv) by done.
      rewrite to_uint_testbit, to_int_testbit, Z.shiftl_spec by lia.
      destruct (Z.ltb_spec k i), (Z.ltb_spec k (i + 1)); try lia; cbn [andb orb].
      * assert (e * (k + 1) <= e * i) by (apply Z.mul_le_mono_nonneg_l; lia).
        rewrite (Z.testbit_neg_r value (r + e * k - e * i)) by lia.
        apply orb_false_r.
      * replace k with i by lia. replace (r + e * i - e * i) with r by lia. done.
      * assert (e * (i + 1) <= e * k) by (apply Z.mul_le_mono_nonneg_l; lia).
        apply (testbit_small value e); [done|lia].
Qed.

(** *** The candidate filter has no false negative *)

Lemma mod_pow2_skip x a b :
  0 <= a <= b -> (forall i, a <= i < b -> Z.testbit x i = false) ->
  x mod 2 ^ b = x mod 2 ^ a.
Proof.
  intros Hab Hz. apply Z.bits_inj'. intros i Hi.
  rewrite !Z.testbit_mod_pow2 by lia.
  destruct (Z.ltb_spec i b), (Z.ltb_spec i a); try done; try lia.
  cbn [andb]. apply Hz. lia.
Qed.

Lemma mod_pow2_split_le x a b :
  0 <= a <= b -> x mod 2 ^ b <= x mod 2 ^ a + 2 ^ b - 2 ^ a.
Proof.
  intros Hab. replace b with (a + (b - a)) by lia.
  rewrite Z.pow_add_r by lia.
  assert (0 < 2 ^ a) by (apply Z.pow_pos_nonneg; lia).
  assert (0 < 2 ^ (b - a)) by (apply Z.pow_pos_nonneg; lia).
  rewrite Z.rem_mul_r by lia.
  pose proof (Z.mod_pos_bound (x / 2 ^ a) (2 ^ (b - a))). nia.
Qed.

Lemma add_testbit_no_carry x y p :
  0 <= p -> x mod 2 ^ p + y mod 2 ^ p < 2 ^ p ->
  Z.testbit x p = false -> Z.testbit y p = false ->
  Z.testbit (x + y) p = false.
Proof.
  intros Hp Hsum Hx Hy. rewrite Z.testbit_false in * by done.
  assert (0 < 2 ^ p) by (apply Z.pow_pos_nonneg; lia).
  pose proof (Z.mod_pos_bound x (2 ^ p)). pose proof (Z.mod_pos_bound y (2 ^ p)).
  replace ((x + y) / 2 ^ p) with (x / 2 ^ p + y / 2 ^ p).
  - now rewrite Z.add_mod, Hx, Hy by lia.
  - apply Z.div_unique with (x mod 2 ^ p + y mod 2 ^ p); [lia|].
    pose proof (Z.div_mod x (2 ^ p)). pose proof (Z.div_mod y (2 ^ p)). lia.
Qed.

Lemma word_matches_testbit packed pattern hbm p :
  0 <= p < 32 ->
  let m := Z.lxor (to_uint packed) pattern in
  Z.testbit (word_matches packed pattern hbm (Z.ones 32)) p =
  negb (Z.testbit (Z.land m hbm + hbm) p || Z.testbit m p || Z.testbit hbm p).
Proof.
  intros Hp m. unfold word_matches. fold m.
  rewrite to_int_testbit, Z.land_spec, to_uint_testbit by done.
  rewrite to_int_testbit, to_uint_testbit by done.
  rewrite Z.lnot_spec, !Z.lor_spec, to_uint_testbit by lia.
  rewrite Z.ones_spec_low by lia. apply andb_true_r.
Qed.

Lemma zero_lane_sets_top_bit e hbm m k :
  1 <= e <= 31 -> top_clear e hbm -> 0 <= k < 32 / e ->
  (forall r, 0 <= r < e -> Z.testbit m (r + e * k) = false) ->
  Z.testbit (Z.land m hbm + hbm) (e * k + e - 1) = false.
Proof.
  intros He Hh Hk Hzero.
  pose proof (lane_offset_fits e He k Hk) as Hfit.
  set (p := e * k + e - 1).
  assert (Hhp : Z.testbit hbm p = false) by now apply Hh.
  assert (HA : forall i, e * k <= i <= p -> Z.testbit (Z.land m hbm) i = false).
  { intros i Hi. rewrite Z.land_spec.
    replace i with ((i - e * k) + e * k) by lia.
    rewrite Hzero by lia. done. }
  assert (0 < 2 ^ (e * k)) by (apply Z.pow_pos_nonneg; lia).
  assert (0 < 2 ^ p) by (apply Z.pow_pos_nonneg; lia).
  assert (2 ^ (e * k) <= 2 ^ p) by (apply Z.pow_le_mono_r; lia).
  pose proof (mod_pow2_split_le hbm (e * k) p ltac:(lia)) as Hsplit.
  apply add_testbit_no_carry; [lia| |apply HA; lia|done].
  rewrite (mod_pow2_skip (Z.land m hbm) (e * k) p) by (try lia; intros; apply HA; lia).
  destruct (Z.eq_dec k 0) as [->|Hk0].
  - rewrite Z.mul_0_r in *. change (2 ^ 0) with 1 in *.
    rewrite !Z.mod_1_r in *. lia.
  - assert (Htop : Z.testbit hbm (e * k - 1) = false).
    { replace (e * k - 1) with (e * (k - 1) + e - 1) by lia. apply Hh. lia. }
    assert (0 <= e * k - 1) by nia.
    assert (2 ^ (e * k) = 2 * 2 ^ (e * k - 1)) as Hd.
    { rewrite <- Z.pow_succ_r by lia. f_equal. lia. }
    assert (0 < 2 ^ (e * k - 1)) by (apply Z.pow_pos_nonneg; lia).
    rewrite (mod_pow2_skip (Z.land m hbm) (e * k - 1) (e * k)).
    2: lia.
    2: { intros i Hi. replace i with (e * k - 1) by lia.
         rewrite Z.land_spec, Htop. apply andb_false_r. }
    rewrite (mod_pow2_skip hbm (e * k - 1) (e * k)) in Hsplit.
    2: lia.
    2: { intros i Hi. replace i with (e * k - 1) by lia. done. }
    pose proof (Z.mod_pos_bound (Z.land m hbm) (2 ^ (e * k - 1))).
    pose proof (Z.mod_pos_bound hbm (2 ^ (e * k - 1))). lia.
Qed.

Lemma filter_complete w value e pattern hbm k :
  1 <= e <= 31 -> top_clear e hbm -> pattern_upto e value (32 / e) pattern ->
  0 <= value < 2 ^ e -> 0 <= k < 32 / e -> lane e w k = value ->
  word_matches (to_int w) pattern hbm (Z.ones 32) <> 0.
Proof.
  intros He Hh Hp Hv Hk Hlane Hzero.
  pose proof (lane_offset_fits e He k Hk) as Hfit.
  assert (Hbit : Z.testbit (word_matches (to_int w) pattern hbm (Z.ones 32))
                   (e * k + e - 1) = true).
  { rewrite word_matches_testbit by lia. cbv zeta.
    assert (Hm : forall r, 0 <= r < e ->
      Z.testbit (Z.lxor (to_uint (to_int w)) pattern) (r + e * k) = false).
    { intros r Hr. rewrite Z.lxor_spec, to_uint_testbit, to_int_testbit by lia.
      rewrite Hp by done. destruct (Z.ltb_spec k (32 / e)); [|lia]. cbn [andb].
      apply (proj1 (lane_eq_iff e w k value ltac:(lia) Hv)) with (r := r) in Hlane;
        [|done].
      rewrite Hlane. apply xorb_nilpotent. }
    rewrite zero_lane_sets_top_bit by done.
    replace (e * k + e - 1) with ((e - 1) + e * k) at 1 by lia.
    rewrite Hm by lia. rewrite Hh by done. done. }
  rewrite Hzero, Z.bits_0 in Hbit. done.
Qed.

(** *** The lane scan inside one word *)

Lemma lane_of_packed e w j :
  1 <= e <= 31 -> 0 <= j < 32 / e ->
  Z.land (to_uint (Z.shiftr (to_int w) (e * j))) (Z.ones e) = lane e w j.
Proof.
  intros He Hj. pose proof (lane_offset_fits e He j Hj).
  apply Z.bits_inj'. intros i Hi.
  rewrite Z.land_spec, lane_testbit, Z.testbit_ones_nonneg by lia.
  destruct (Z.ltb_spec i e); [|apply andb_false_r].
  rewrite to_uint_testbit, Z.shiftr_spec, to_int_testbit by lia.
  apply andb_true_r.
Qed.

Lemma find_lane_spec w value e i n : forall j,
  1 <= e <= 31 -> 0 <= j -> j + Z.of_nat n = 32 / e ->
  match find_lane (to_int w) value e (Z.ones e) (32 / e) i j n with
  | Ok (Some r) =>
      exists j', j <= j' < 32 / e /\
        r = to_size_t (to_int (to_int (i * (32 / e)) + j')) /\
        lane e w j' = to_uint value /\
        forall k, j <= k < j' -> lane e w k <> to_uint value
  | Ok None => forall k, j <= k < 32 / e -> lane e w k <> to_uint value
  | Err _ => False
  end.
Proof.
  induction n as [|n IH]; intros j He Hj Hn.
  - cbn [find_lane]. intros k Hk. lia.
  - cbn [find_lane]. pose proof (vals_pos e He).
    assert (0 <= j < 32 / e) as Hlane by lia.
    pose proof (lane_offset_fits e He j Hlane).
    rewrite (to_int_id (e * j)) by (unfold int_range; lia).
    rewrite shr_int_ok by lia. cbn [bind].
    rewrite lane_of_packed by done.
    destruct (Z.eqb_spec (lane e w j) (to_uint value)) as [Heq|Hne].
    + exists j. repeat split; try done; try lia.
    + rewrite (to_int_id (j + 1)) by (unfold int_range; lia).
      specialize (IH (j + 1) He ltac:(lia) ltac:(lia)).
      destruct (find_lane _ _ _ _ _ _ _ n) as [[r|]|f]; [| |done].
      * destruct IH as (j' & Hj' & Hr & Hl & Hk).
        exists j'. repeat split; try done; try lia.
        intros k Hkj. destruct (Z.eq_dec k j) as [->|]; [done|].
        apply Hk. lia.
      * intros k Hk. destruct (Z.eq_dec k j) as [->|]; [done|].
        apply IH. lia.
Qed.

(** *** The word scan *)

Lemma raw_lane_word e buf i k w :
  1 <= e <= 31 -> 0 <= i -> 0 <= k < 32 / e ->
  buf !! Z.to_nat i = Some w ->
  raw_lane e buf (i * (32 / e) + k) = lane e w k.
Proof.
  intros He Hi Hk Hw. unfold raw_lane.
  replace ((i * (32 / e) + k) / (32 / e)) with i
    by (apply Z.div_unique with k; lia).
  replace ((i * (32 / e) + k) mod (32 / e)) with k
    by (apply Z.mod_unique with i; lia).
  now rewrite (nth_lookup_Some _ _ _ _ Hw).
Qed.

(** Every index of the words [i ..] is a lane of one of these words. *)
Lemma index_in_word v i idx :
  0 < v -> i * v <= idx < (i + 1) * v ->
  idx = i * v + idx mod v /\ 0 <= idx mod v < v.
Proof.
  intros Hv Hidx. pose proof (Z.mod_pos_bound idx v Hv).
  split; [|done].
  assert (idx / v = i) as Hq.
  { symmetry. apply Z.div_unique with (idx - i * v); lia. }
  pose proof (Z.div_mod idx v). rewrite Hq in *. lia.
Qed.

Lemma find_words_spec buf value e pattern hbm n : forall i,
  1 <= e <= 31 -> int_range value ->
  top_clear e hbm ->
  (0 <= value < 2 ^ e -> pattern_upto e value (32 / e) pattern) ->
  0 <= i -> i + Z.of_nat n = Z.of_nat (length buf) ->
  Z.of_nat (length buf) * (32 / e) < 2 ^ 31 ->
  exists r,
    find_words buf value e (Z.ones e) (32 / e) pattern hbm (Z.ones 32) i n
      = Ok r /\
    ((r = NOT_FOUND /\
      forall idx, i * (32 / e) <= idx < Z.of_nat (length buf) * (32 / e) ->
                  raw_lane e buf idx <> to_uint value) \/
     (i * (32 / e) <= r < Z.of_nat (length buf) * (32 / e) /\
      raw_lane e buf r = to_uint value /\
      forall idx, i * (32 / e) <= idx < r ->
                  raw_lane e buf idx <> to_uint value)).
Proof.
  induction n as [|n IH]; intros i He Hv Hh Hp Hi Hn Hlen.
  - cbn [find_words]. eexists. split; [done|]. left. split; [done|].
    intros idx Hidx. nia.
  - cbn [find_words]. pose proof (vals_pos e He) as Hvals.
    destruct (buf_read_lt buf i) as (w & Hw & ->); [lia|]. cbn [bind].
    rewrite (to_int_id (i + 1)) by (unfold int_range; nia).
    specialize (IH (i + 1) He Hv Hh Hp ltac:(lia) ltac:(lia) Hlen).
    destruct IH as (r' & Hr' & Hrest).
    (* no lane of word [i] matches: the scan moves on *)
    assert (Hskip : (forall k, 0 <= k < 32 / e -> lane e w k <> to_uint value) ->
      (r' = NOT_FOUND /\
        forall idx, i * (32 / e) <= idx < Z.of_nat (length buf) * (32 / e) ->
                    raw_lane e buf idx <> to_uint value) \/
      (i * (32 / e) <= r' < Z.of_nat (length buf) * (32 / e) /\
        raw_lane e buf r' = to_uint value /\
        forall idx, i * (32 / e) <= idx < r' ->
                    raw_lane e buf idx <> to_uint value)).
    { intros Hnone.
      assert (Hword : forall idx, i * (32 / e) <= idx < (i + 1) * (32 / e) ->
                raw_lane e buf idx <> to_uint value).
      { intros idx Hidx.
        destruct (index_in_word (32 / e) i idx ltac:(lia) Hidx) as [Heq Hk].
        rewrite Heq, (raw_lane_word e buf i _ w) by first [done | lia].
        now apply Hnone. }
      destruct Hrest as [[-> Hall]|(Hr & Hraw & Hall)].
      - left. split; [done|]. intros idx Hidx.
        destruct (Z.lt_ge_cases idx ((i + 1) * (32 / e)));
          [apply Hword|apply Hall]; lia.
      - right. split; [lia|]. split; [done|]. intros idx Hidx.
        destruct (Z.lt_ge_cases idx ((i + 1) * (32 / e)));
          [apply Hword|apply Hall]; lia. }
    destruct (Z.eqb_spec (word_matches (to_int w) pattern hbm (Z.ones 32)) 0)
      as [Hzero|Hcand].
    + exists r'. split; [done|]. apply Hskip. intros k Hk Hlane.
      destruct (Z.lt_ge_cases (to_uint value) (2 ^ e)) as [Hfit|Hbig].
      * assert (to_uint value = value) as Hu.
        { pose proof (pow2_le_31 e ltac:(lia)).
          unfold to_uint, int_range in *.
          destruct (Z.lt_ge_cases value 0).
          - rewrite <- (Z.mod_add value 1), Z.mod_small in Hfit; lia.
          - apply Z.mod_small. lia. }
        rewrite Hu in *. pose proof (lane_range e w k ltac:(lia)).
        apply (filter_complete w value e pattern hbm k); try done; try lia.
        apply Hp. lia.
      * pose proof (lane_range e w k ltac:(lia)). lia.
    + pose proof (find_lane_spec w value e i (Z.to_nat (32 / e)) 0 He
                    ltac:(lia) ltac:(lia)) as Hscan.
      destruct (find_lane _ _ _ _ _ _ _ _) as [[r|]|f]; [| |done]; cbn [bind].
      * destruct Hscan as (j' & Hj' & -> & Hl & Hbefore).
        rewrite (to_int_id (i * _)) by (unfold int_range; nia).
        rewrite (to_int_id (_ + j')) by (unfold int_range; nia).
        rewrite (to_size_t_id (_ + j')) by (unfold size_t_range; nia).
        eexists. split; [done|]. right. split; [nia|].
        split; [now rewrite (raw_lane_word e buf i j' w) by first [done | lia]|].
        intros idx Hidx.
        destruct (index_in_word (32 / e) i idx ltac:(lia) ltac:(lia)) as [Heq Hk].
        rewrite Heq, (raw_lane_word e buf i _ w) by first [done | lia].
        apply Hbefore. lia.
      * exists r'. split; [done|]. apply Hskip. intros k Hk. apply Hscan. lia.
Qed.

(** *** [find] on a well-formed container *)

Lemma find_raw st v :
  wf st -> int_range v ->
  exists r, find st v = Ok r /\
    ((r = NOT_FOUND /\
      forall idx, 0 <= idx < allocated_lanes st ->
                  raw_lane (entropy st) (buffer st) idx <> to_uint v) \/
     (0 <= r < allocated_lanes st /\
      raw_lane (entropy st) (buffer st) r = to_uint v /\
      forall idx, 0 <= idx < r ->
                  raw_lane (entropy st) (buffer st) idx <> to_uint v)).
Proof.
  intros Hwf Hv. unfold find.
  pose proof (wf_words st Hwf) as Hwords.
  pose proof (wf_lanes_bound st Hwf) as Hbound.
  pose proof Hwf as [He _ Hsz Ha _ _].
  unfold entropy_ok, allocated_lanes, BITS_IN_INT, MAX_SIZE in *.
  pose proof (vals_pos _ He) as Hvals. pose proof (vals_fit _ He) as Hfit.
  pose proof (vals_tight _ He) as Htight.
  rewrite VALS_IN_INT_ok by done. cbn [bind].
  rewrite shl_int_ok by lia. cbn [bind]. rewrite uint_mask by done.
  rewrite (to_int_id (_ * entropy st)) by (unfold int_range; lia).
  rewrite (to_int_id (32 - _)) by (unfold int_range; lia).
  rewrite shr_int_ok by lia. cbn [bind].
  rewrite big_mask_all_ones by lia.
  destruct (find_masks_spec v (entropy st) (Z.to_nat (32 / entropy st)) 0 0 0)
    as (p & h & -> & Hh & Hp); try done; try lia.
  { intros k _. apply Z.bits_0. }
  { intros _ k r Hk Hr. rewrite Z.bits_0.
    destruct (Z.ltb_spec k 0); [lia|done]. }
  cbn [bind].
  rewrite (to_size_t_id (allocated st)) by (unfold size_t_range, SIZEOF_INT in *; lia).
  rewrite Hwords in *.
  rewrite (to_int_id (Z.of_nat _)) by (unfold int_range; nia).
  rewrite Nat2Z.id.
  destruct (find_words_spec (buffer st) v (entropy st) p h
              (length (buffer st)) 0) as (r & -> & Hr); try done; try lia.
  exists r. split; [done|]. rewrite Z.mul_0_l in Hr. done.
Qed.

Lemma get_raw st index :
  wf st -> 0 <= index < allocated_lanes st ->
  get st index =
    Ok (decode (signed_values st) (entropy st)
          (raw_lane (entropy st) (buffer st) index)).
Proof.
  intros Hwf Hi. destruct (wf_word_of_index st index Hwf Hi) as [Hidx Hj].
  pose proof Hwf as [He _ _ _ _ _]. unfold entropy_ok, BITS_IN_INT in He.
  destruct (index_split _ index He Hidx) as [Hq _].
  destruct (lookup_lt_is_Some_2 (buffer st)
              (Z.to_nat (index / (32 / entropy st)))) as [w Hw]; [lia|].
  unfold get, raw_lane. rewrite (_get_spec _ _ _ _ w) by done.
  now rewrite (nth_lookup_Some _ _ _ _ Hw).
Qed.

Lemma raw_lane_range e buf index : 1 <= e <= 31 -> 0 <= raw_lane e buf index < 2 ^ 31.
Proof.
  intros He. unfold raw_lane. pose proof (lane_range e
    (nth (Z.to_nat (index / (32 / e))) buf 0) (index mod (32 / e)) ltac:(lia)).
  pose proof (pow2_le_31 e ltac:(lia)). lia.
Qed.

Lemma uint_eq_small x v :
  0 <= x < 2 ^ 31 -> int_range v -> x = to_uint v <-> x = v.
Proof.
  unfold int_range, to_uint. intros Hx Hv.
  destruct (Z.lt_ge_cases v 0).
  - rewrite <- (Z.mod_add v 1), Z.mod_small by lia. lia.
  - rewrite Z.mod_small by lia. done.
Qed.

(** On a value that the current encoding represents, [get] answers [v]
    exactly where [find] sees a match. *)
Lemma get_eq_iff_raw st v index :
  wf st -> int_range v ->
  signed_values st = 0 \/ 0 <= v < 2 ^ (entropy st - 1) ->
  0 <= index < allocated_lanes st ->
  get st index = Ok v <->
  raw_lane (entropy st) (buffer st) index = to_uint v.
Proof.
  intros Hwf Hv Hrep Hi. rewrite get_raw by done.
  pose proof Hwf as [He Hs _ _ _ _]. unfold entropy_ok, BITS_IN_INT in He.
  pose proof (raw_lane_range (entropy st) (buffer st) index He) as Hr.
  rewrite uint_eq_small by done.
  assert (0 <= raw_lane (entropy st) (buffer st) index < 2 ^ entropy st) as Hl.
  { unfold raw_lane. apply lane_range. lia. }
  rewrite <- (decode_eq_iff (signed_values st) (entropy st) _ v He Hl)
    by (destruct Hrep; [left|destruct Hs; [left|right]]; auto).
  split; [now intros [= ->]|now intros ->].
Qed.

(** X16.  The lane is compared with [value] converted to [unsigned int]:
    a negative value is never found, stored or not. *)
Lemma find_negative st v :
  wf st -> int_range v -> v < 0 -> find st v = Ok NOT_FOUND.
Proof.
  intros Hwf Hv Hneg.
  destruct (find_raw st v Hwf Hv) as (r & Hr & [[-> _]|(Hlt & Hraw & _)]);
    [done|].
  pose proof Hwf as [He _ _ _ _ _]. unfold entropy_ok, BITS_IN_INT in He.
  pose proof (raw_lane_range (entropy st) (buffer st) r He) as Hrange.
  apply (proj1 (uint_eq_small _ v Hrange Hv)) in Hraw. lia.
Qed.

(** ** Shift safety of [insert] and [find] *)

Lemma no_bad_shift_bind {A B} (P : A -> Prop) (Q : B -> Prop) m k :
  no_bad_shift P m -> (forall a, P a -> no_bad_shift Q (k a)) ->
  no_bad_shift Q (bind m k).
Proof. destruct m as [a|f]; cbn; auto. Qed.

Lemma no_bad_shift_any {A} (m : result A) :
  m <> Err BadShift -> no_bad_shift (fun _ => True) m.
Proof. destruct m as [a|f]; cbn; [done|]. intros Hm ->. now apply Hm. Qed.

Lemma repack_loop_no_bad_shift s buf e ve n : forall i new_buffer,
  1 <= e <= 31 -> 1 <= ve <= 31 ->
  no_bad_shift (fun _ => True) (repack_loop s buf new_buffer e ve i n).
Proof.
  induction n as [|n IH]; intros i nb He Hve; [done|].
  cbn [repack_loop].
  apply no_bad_shift_bind with (P := fun _ => True);
    [apply no_bad_shift_any, _get_no_bad_shift; done|]. intros v _.
  apply no_bad_shift_bind with (P := fun _ => True);
    [apply no_bad_shift_any, _put_no_bad_shift; done|]. intros nb' _.
  now apply IH.
Qed.

Lemma div_int_no_bad_shift a b : no_bad_shift (fun _ => True) (div_int a b).
Proof. unfold div_int. destruct (b =? 0); done. Qed.

Lemma repack_no_bad_shift st ve sw :
  entropy_ok st -> 1 <= ve <= 31 -> no_bad_shift entropy_ok (repack st ve sw).
Proof.
  intros He Hve. unfold repack, entropy_ok, BITS_IN_INT in *.
  destruct ((entropy st <? ve) || negb (sw =? 0)); [|done].
  rewrite VALS_IN_INT_ok by done. cbn [bind].
  apply no_bad_shift_bind with (P := fun _ => True);
    [apply div_int_no_bad_shift|]. intros q _.
  apply no_bad_shift_bind with (P := fun _ => True);
    [now apply repack_loop_no_bad_shift|]. intros nb _.
  cbn. lia.
Qed.

Lemma grow_no_bad_shift st index :
  entropy_ok st -> no_bad_shift entropy_ok (grow st index).
Proof.
  intros He. unfold grow. destruct (index >=? to_size_t (size st)); [|done].
  unfold entropy_ok, BITS_IN_INT in *. pose proof (vals_pos _ He).
  rewrite VALS_IN_INT_ok by done. cbn [bind].
  rewrite (to_size_t_id (32 / _)) by (unfold size_t_range; lia).
  rewrite div_size_t_ok by lia. cbn [bind].
  unfold memcpy. destruct (_ && _); cbn; [lia|done].
Qed.

Lemma insert_no_bad_shift st index value :
  entropy_ok st -> int_range value ->
  no_bad_shift entropy_ok (insert st index value).
Proof.
  intros He Hv. unfold insert.
  destruct (select_width_range (signed_values st) value Hv)
    as (ve & sw & -> & Hve & _). cbn [bind].
  apply no_bad_shift_bind with (P := entropy_ok);
    [now apply repack_no_bad_shift|]. intros st1 He1.
  apply no_bad_shift_bind with (P := entropy_ok);
    [now apply grow_no_bad_shift|]. intros st2 He2.
  apply no_bad_shift_bind with (P := fun _ => True);
    [apply no_bad_shift_any, _put_no_bad_shift; apply He2|]. intros nb _.
  apply He2.
Qed.

Lemma find_words_no_bad_shift buf value e p h bm n : forall i,
  1 <= e <= 31 ->
  no_bad_shift (fun _ => True)
    (find_words buf value e (Z.ones e) (32 / e) p h bm i n).
Proof.
  induction n as [|n IH]; intros i He; [done|].
  cbn [find_words]. pose proof (vals_pos e He).
  apply no_bad_shift_bind with (P := fun _ => True);
    [apply no_bad_shift_any, buf_read_no_bad_shift|]. intros w _.
  destruct (_ =? 0); [now apply IH|].
  pose proof (find_lane_spec w value e i (Z.to_nat (32 / e)) 0 He
                ltac:(lia) ltac:(lia)) as Hscan.
  destruct (find_lane _ _ _ _ _ _ _ _) as [[r|]|f]; cbn [bind];
    [done|now apply IH|done].
Qed.

Lemma find_no_bad_shift st value :
  entropy_ok st -> no_bad_shift (fun _ => True) (find st value).
Proof.
  intros He. unfold find, entropy_ok, BITS_IN_INT in *.
  pose proof (vals_pos _ He). pose proof (vals_fit _ He).
  rewrite VALS_IN_INT_ok by done. cbn [bind].
  rewrite shl_int_ok by lia. cbn [bind]. rewrite uint_mask by done.
  rewrite (to_int_id (_ * entropy st)) by (unfold int_range; lia).
  rewrite (to_int_id (32 - _)) by (unfold int_range; lia).
  rewrite shr_int_ok by lia. cbn [bind].
  destruct (find_masks_spec value (entropy st) (Z.to_nat (32 / entropy st)) 0 0 0)
    as (p & h & -> & _ & _); try done; try lia.
  { intros k _. apply Z.bits_0. }
  { intros _ k r Hk Hr. rewrite Z.bits_0.
    destruct (Z.ltb_spec k 0); [lia|done]. }
  cbn [bind]. now apply find_words_no_bad_shift.
Qed.

(** * The claims *)

Lemma unsigned_sample_reached :
  inserts (init 0) [(0, 5); (1, 7); (2, 5); (3, 7)] = Ok unsigned_sample.
Proof. vm_compute. reflexivity. Qed.

Lemma signed_sample_reached :
  inserts (init 0) [(0, -3); (1, 2); (2, -3); (3, 2)] = Ok signed_sample.
Proof. vm_compute. reflexivity. Qed.

(** ** C1: round trip *)

(** C1 (defect of the code).  The round trip fails.  After
    [insert(0, -1); insert(1, 2)], in index order, [get(1)] is [-2]: in signed
    mode a non-negative value gets no room for the sign bit.  After
    [insert(1, 1); insert(0, -1)], [get(1)] is [-1]: [_put] does not mask the
    value, and the sign bits of [-1] run over the lanes above lane 0. *)
Theorem round_trip_broken :
  (st <- inserts (init 0) [(0, -1); (1, 2)] ;; get st 1) = Ok (-2) /\
  (st <- inserts (init 0) [(1, 1); (0, -1)] ;; get st 1) = Ok (-1).
Proof. split; vm_compute; reflexivity. Qed.

(** ** C2: repack fidelity *)

(** C2 (defect of the code).  A repack forced by the switch to signed mode
    re-encodes at the width of the new value alone.  [insert(0, 3)] stores 3
    in two unsigned bits; [insert(1, -1)] switches the sign mode at the same
    width, and [get(0)] becomes [-1]. *)
Theorem repack_changes_value :
  (st <- inserts (init 0) [(0, 3)] ;;
   v <- get st 0 ;; Ok (v, entropy st, signed_values st)) = Ok (3, 2, 0) /\
  (st <- inserts (init 0) [(0, 3); (1, -1)] ;;
   v <- get st 0 ;; Ok (v, entropy st, signed_values st)) = Ok (-1, 2, 1).
Proof. split; vm_compute; reflexivity. Qed.

(** ** C3: monotonic encoding state *)

(** C3 (defect of the code).  [entropy] decreases: after [insert(0, 1000)]
    it is 10, and [insert(1, -1)], which switches to signed mode, sets it
    to 2, the width of [-1]. *)
Theorem entropy_shrinks :
  (st <- inserts (init 0) [(0, 1000)] ;; Ok (entropy st)) = Ok 10 /\
  (st <- inserts (init 0) [(0, 1000); (1, -1)] ;; Ok (entropy st)) = Ok 2.
Proof. split; vm_compute; reflexivity. Qed.

(** ** C4: find correctness *)

(** C4 (defect of the code).  [find] compares the masked lane with [value]
    converted to [unsigned int], so a stored negative value is never found:
    after [insert(0, -1)], [get(0)] is [-1] and [find(-1)] answers
    [NOT_FOUND], while [find(3)] answers index 0, where [get] reads [-1].
    It also scans [allocated / sizeof(int)] words and not the
    [size] elements: with every index below [size] = 32 holding 3 or 2,
    [find(0)] answers 32, a lane of the trailing allocated word, and not
    [NOT_FOUND]. *)
Theorem find_contract_broken :
  (st <- inserts (init 0) [(0, -1)] ;; get st 0) = Ok (-1) /\
  (st <- inserts (init 0) [(0, -1)] ;; find st (-1)) = Ok NOT_FOUND /\
  (st <- inserts (init 0) [(0, -1)] ;; find st 3) = Ok 0 /\
  exists st,
    inserts (init 0) (fill 3 2) = Ok st /\ size st = 32 /\
    min_value st = Ok 2 /\ find st 0 = Ok 32 /\
    ~ finds_lowest (size st) st 0.
Proof.
  split; [vm_compute; reflexivity|]. split; [vm_compute; reflexivity|].
  split; [vm_compute; reflexivity|].
  eexists. split; [vm_compute; reflexivity|].
  split; [reflexivity|]. split; [vm_compute; reflexivity|].
  split; [vm_compute; reflexivity|].
  intros (r & Hr & H). vm_compute in Hr. injection Hr as <-.
  cbn [size] in H. destruct H as [[H _]|[H _]]; [discriminate H|lia].
Qed.

(** X21.  What [find] does find: on a well-formed container and for a
    value [v] that the current encoding represents without its sign bit
    (any [int] [v] in unsigned mode, [0 <= v < 2^(entropy-1)] in signed
    mode), [find(v)] answers the lowest index below the allocated lanes
    (allocated words times lanes per word) at which [get] reads [v], and
    [NOT_FOUND] when there is none. *)
Theorem find_lowest_match st v :
  wf st -> int_range v ->
  signed_values st = 0 \/ 0 <= v < 2 ^ (entropy st - 1) ->
  finds_lowest (allocated_lanes st) st v.
Proof.
  intros Hwf Hv Hrep.
  destruct (find_raw st v Hwf Hv) as (r & Hr & Hcases).
  exists r. split; [done|].
  destruct Hcases as [[-> Hnone]|(Hlt & Hraw & Hbefore)].
  - left. split; [done|]. intros i Hi.
    rewrite get_eq_iff_raw by done. now apply Hnone.
  - right. split; [done|]. split.
    + now rewrite get_eq_iff_raw.
    + intros i Hi. rewrite get_eq_iff_raw by (done || lia). now apply Hbefore.
Qed.

Lemma find_lowest_match_witness :
  wf signed_sample /\ int_range 2 /\
  (signed_values signed_sample = 0 \/
   0 <= 2 < 2 ^ (entropy signed_sample - 1)) /\
  finds_lowest (allocated_lanes signed_sample) signed_sample 2.
Proof.
  assert (Hwf : wf signed_sample) by (split; concrete).
  assert (Hv : int_range 2) by concrete.
  assert (Hrep : signed_values signed_sample = 0 \/
                 0 <= 2 < 2 ^ (entropy signed_sample - 1))
    by (right; concrete).
  split; [exact Hwf|]. split; [exact Hv|]. split; [exact Hrep|].
  exact (find_lowest_match signed_sample 2 Hwf Hv Hrep).
Defined.

(** ** C5: the range of find *)

(** C5 (defect of the code).  The loop of [find] runs over
    [allocated / sizeof(int)] words, where [max_value], [min_value],
    [print_dump] and the repack loop stop at [size]: after insertions that
    fill the indices [0 .. 31] with 2 and 1, [size] is 32 and [min_value()]
    is 1, yet [find(0)] answers 32, an index in the trailing allocated
    word. *)
Theorem find_reaches_unused_word :
  exists st,
    inserts (init 0) (fill 2 1) = Ok st /\ size st = 32 /\
    allocated st = 12 /\ entropy st = 2 /\
    min_value st = Ok 1 /\ find st 0 = Ok 32 /\
    ~ finds_below (size st) st 0.
Proof.
  eexists. split; [vm_compute; reflexivity|].
  split; [reflexivity|]. split; [reflexivity|]. split; [reflexivity|].
  split; [vm_compute; reflexivity|]. split; [vm_compute; reflexivity|].
  intros (r & Hr & H). vm_compute in Hr. injection Hr as <-.
  cbn [size] in H. destruct H as [H|H]; [discriminate H|lia].
Qed.

(** X22.  How far [find] reaches: on a well-formed container it answers
    [NOT_FOUND] or an index below the allocated lanes, for every [int]
    value, and the allocated lanes cover [size] and reach at most one word
    ([BITS_IN_INT / entropy] lanes) beyond it. *)
Theorem find_within_allocation st v :
  wf st -> int_range v ->
  finds_below (allocated_lanes st) st v /\
  size st <= allocated_lanes st <= size st + BITS_IN_INT / entropy st.
Proof.
  intros Hwf Hv. split.
  - destruct (find_raw st v Hwf Hv) as (r & Hr & Hcases).
    exists r. split; [done|]. destruct Hcases as [[-> _]|[Hlt _]]; auto.
  - pose proof Hwf as [He _ Hs _ Hc Ht].
    unfold capacity_ok, allocated_lanes, entropy_ok, BITS_IN_INT in *.
    pose proof (vals_pos _ He).
    pose proof (Z.mul_div_le (size st) (32 / entropy st)). nia.
Qed.

Lemma find_within_allocation_witness :
  wf unsigned_sample /\ int_range 7 /\
  finds_below (allocated_lanes unsigned_sample) unsigned_sample 7.
Proof.
  assert (Hwf : wf unsigned_sample) by (split; concrete).
  assert (Hv : int_range 7) by concrete.
  split; [exact Hwf|]. split; [exact Hv|].
  exact (proj1 (find_within_allocation unsigned_sample 7 Hwf Hv)).
Defined.

(** ** C6: lane isolation of [_put] *)

(** C6 (defect of the code).  [_put] ORs in the whole shifted value and not
    its low [entropy] bits: writing [-1] to lane 0 of a word whose lane 1
    holds 1, at two bits per lane, sets every bit of the word, and lane 1
    reads 3. *)
Theorem put_overwrites_neighbours :
  _put [4] 0 (-1) 2 = Ok [4294967295] /\
  lane 2 4 1 = 1 /\ lane 2 4294967295 1 = 3.
Proof. concrete. Qed.

(** ** C7: the initial state *)

(** C7 (defect of the code).  [init] sets [entropy = 1], [signed_values = 0]
    and [size = BITS_IN_INT], but it does not clear the word it allocates:
    with the word 1 left in the block, [get(0)] is 1. *)
Theorem init_not_cleared :
  entropy (init 1) = 1 /\ signed_values (init 1) = 0 /\
  size (init 1) = BITS_IN_INT /\ buffer (init 1) = [1] /\
  get (init 1) 0 = Ok 1.
Proof. concrete. Qed.

(** ** C8: the width cap *)

(** C8, as stated, fails at [-32768]: the magnitude needs 16 bits, which is
    not more than half a word, and the width selection clamps all the same,
    because its test is applied after the sign bit is added. *)
Lemma clamp_at_half_width :
  ~ (clamps 0 (-32768) <-> wider_than_half (-32768)).
Proof.
  intros [Hclamp _]. destruct Hclamp as (w & Hw & Hgt).
  - exists 1. vm_compute. reflexivity.
  - vm_compute in Hw. injection Hw as <-. vm_compute in Hgt. discriminate.
Qed.

(** C8 (amended).  The width computed first is the number of bits of
    [|value|]; the clamp to [BITS_IN_INT - 1] occurs exactly when that width
    plus one bit for the sign of a negative value exceeds [BITS_IN_INT / 2],
    that is for [value >= 2^16] and for [value <= -2^15]; and a clamp on an
    unsigned container sets the sign switch, whatever the sign of the
    value. *)
Theorem width_cap_rule s v :
  int_range v ->
  unsigned_width v = Ok (bits_of_magnitude v) /\
  (clamps s v <-> bits_with_sign v > BITS_IN_INT / 2) /\
  (clamps s v <-> 2 ^ 16 <= v \/ v <= - 2 ^ 15) /\
  (clamps s v -> s = 0 -> select_width s v = Ok (BITS_IN_INT - 1, 1)).
Proof.
  intros Hv. split; [now apply unsigned_width_spec|].
  rewrite <- bits_with_sign_wide.
  cut ((clamps s v <-> bits_with_sign v > BITS_IN_INT / 2) /\
       (clamps s v -> s = 0 -> select_width s v = Ok (BITS_IN_INT - 1, 1)));
    [change (BITS_IN_INT / 2) with 16; tauto|].
  pose proof (select_width_spec s v Hv) as Hsel.
  change (BITS_IN_INT / 2) with 16. change (BITS_IN_INT - 1) with 31.
  unfold clamps. change (BITS_IN_INT - 1) with 31.
  destruct (Z.gtb_spec (bits_with_sign v) 16) as [Hgt|Hle].
  - split; [split; [lia|]; eauto|].
    intros _ ->. now rewrite Hsel.
  - split; [split; [|lia]|].
    + intros (sw & Hsw). rewrite Hsw in Hsel. injection Hsel as Hsel _. lia.
    + intros (sw & Hsw). rewrite Hsw in Hsel. injection Hsel as Hsel _. lia.
Qed.

Lemma width_cap_rule_witness :
  int_range (-32768) /\
  (clamps 0 (-32768) <-> bits_with_sign (-32768) > BITS_IN_INT / 2).
Proof.
  assert (Hv : int_range (-32768)) by concrete.
  split; [exact Hv|].
  exact (proj1 (proj2 (width_cap_rule 0 (-32768) Hv))).
Defined.

(** ** C9: entropy bounds and shift safety *)

(** The degenerate values: 0 takes one bit, -1 two, and the least [int],
    whose magnitude overflows, is clamped. *)
Lemma select_width_degenerate :
  select_width 0 0 = Ok (1, 0) /\
  select_width 0 (-1) = Ok (2, 1) /\
  select_width 0 (- 2 ^ 31) = Ok (31, 1).
Proof. concrete. Qed.

(** C9.  [init] establishes [1 <= entropy <= BITS_IN_INT - 1]; the width
    selected for any [int], the degenerate ones included, lies in that
    range; [insert] keeps the invariant; and under it no shift of [get],
    [_put], [insert] or [find] is by a negative amount or by the word width
    or more.  On a well-formed container [insert] and [find] do return. *)
Theorem entropy_bounds_and_shift_safety st index value :
  entropy_ok st -> int_range value ->
  (forall junk, entropy_ok (init junk)) /\
  (exists e sw, select_width (signed_values st) value = Ok (e, sw) /\
                1 <= e <= BITS_IN_INT - 1) /\
  no_bad_shift entropy_ok (insert st index value) /\
  no_bad_shift (fun _ => True) (get st index) /\
  no_bad_shift (fun _ => True) (_put (buffer st) index value (entropy st)) /\
  no_bad_shift (fun _ => True) (find st value) /\
  (wf st -> index_ok index ->
   exists st', insert st index value = Ok st' /\ entropy_ok st') /\
  (wf st -> exists r, find st value = Ok r).
Proof.
  intros He Hv. repeat split.
  - unfold entropy_ok, init, BITS_IN_INT. cbn. lia.
  - unfold entropy_ok, init, BITS_IN_INT. cbn. lia.
  - destruct (select_width_range (signed_values st) value Hv)
      as (e & sw & Hsel & Hr & _). exists e, sw. split; [done|]. apply Hr.
  - now apply insert_no_bad_shift.
  - apply no_bad_shift_any, _get_no_bad_shift, He.
  - apply no_bad_shift_any, _put_no_bad_shift, He.
  - now apply find_no_bad_shift.
  - intros Hwf Hidx.
    destruct (insert_wf st index value Hwf Hidx Hv) as (st' & Hins & Hwf' & _).
    exists st'. split; [done|]. apply Hwf'.
  - intros Hwf. destruct (find_raw st value Hwf Hv) as (r & Hr & _). eauto.
Qed.

Lemma entropy_bounds_and_shift_safety_witness :
  entropy_ok (init 0) /\ int_range (- 2 ^ 31) /\
  no_bad_shift entropy_ok (insert (init 0) 40 (- 2 ^ 31)).
Proof.
  assert (He : entropy_ok (init 0)) by concrete.
  assert (Hv : int_range (- 2 ^ 31)) by concrete.
  split; [exact He|]. split; [exact Hv|].
  exact (proj1 (proj2 (proj2
           (entropy_bounds_and_shift_safety (init 0) 40 (- 2 ^ 31) He Hv)))).
Defined.

(** ** C10: the capacity invariant *)

(** C10 (defect of the code).  The growth block of [insert] keeps
    [new_size] and [new_allocated] in [int]s.  On a well-formed container
    of 31 bits per value and 164 allocated bytes, [insert(2^30, 5)] has
    [new_size = 2^30 + 1]; [sizeof(int) * new_size] is [2^32 + 4], which
    [new_allocated] truncates to 4; the new block is one word, and [memcpy]
    copies the 164 bytes of the old buffer into it, outside the
    allocation. *)
Theorem insert_overflows_allocation :
  inserts (init 0) [(0, 9); (40, -70000); (3, 12)] = Ok wide_sample /\
  wf wide_sample /\
  entropy wide_sample = 31 /\ allocated wide_sample = 164 /\
  to_int (to_size_t (2 ^ 30 / 1 + 1)) = 2 ^ 30 + 1 /\
  to_int (to_size_t (SIZEOF_INT * to_size_t (2 ^ 30 + 1))) = 4 /\
  length (malloc_zeroed (to_size_t 4)) = 1%nat /\
  grow wide_sample (2 ^ 30) = Err OutOfBounds /\
  insert wide_sample (2 ^ 30) 5 = Err OutOfBounds.
Proof.
  split; [vm_compute; reflexivity|]. split; [split; concrete|].
  repeat (split; [vm_compute; reflexivity|]). vm_compute; reflexivity.
Qed.

(** X23.  Within the index range where no [int] of the source overflows
    ([0 <= index] and [index + 32 <= 2^28]): [init] establishes and
    [insert] preserves the well-formedness of the container, of which
    [allocated_lanes >= size] is a part; [insert] returns; and on a
    well-formed container [get] and [_put] at any index below [size]
    succeed, so they stay inside the buffer. *)
Theorem capacity_invariant st index value :
  wf st -> index_ok index -> int_range value ->
  (forall junk, wf (init junk) /\ capacity_ok (init junk)) /\
  (exists st', insert st index value = Ok st' /\ wf st' /\ capacity_ok st') /\
  (forall i, 0 <= i < size st ->
     (exists v, get st i = Ok v) /\
     (exists buf, _put (buffer st) i value (entropy st) = Ok buf /\
                  length buf = length (buffer st))).
Proof.
  intros Hwf Hidx Hv. split; [|split].
  - intros junk. pose proof (init_wf junk) as H. split; [done|]. apply H.
  - destruct (insert_wf st index value Hwf Hidx Hv) as (st' & Hins & Hwf' & _).
    exists st'. split; [done|]. split; [done|]. apply Hwf'.
  - intros i Hi. pose proof (wf_lanes_bound st Hwf) as Hb.
    destruct (wf_word_of_index st i Hwf ltac:(lia)) as [Hr Hj].
    split.
    + destruct (_get_ok (signed_values st) (buffer st) i (entropy st))
        as (v & Hg & _); [apply Hwf|done|done|]. now exists v.
    + apply _put_ok; [apply Hwf|done|done].
Qed.

Lemma capacity_invariant_witness :
  wf unsigned_sample /\ index_ok 100 /\ int_range (-9) /\
  exists st', insert unsigned_sample 100 (-9) = Ok st' /\ wf st' /\
              capacity_ok st'.
Proof.
  assert (Hwf : wf unsigned_sample) by (split; concrete).
  assert (Hidx : index_ok 100) by concrete.
  assert (Hv : int_range (-9)) by concrete.
  split; [exact Hwf|]. split; [exact Hidx|]. split; [exact Hv|].
  exact (proj1 (proj2 (capacity_invariant unsigned_sample 100 (-9) Hwf Hidx Hv))).
Defined.

(** * Beyond the claims *)

(** ** What a lane can hold *)

Lemma representable_dec s e x :
  s = 0 \/ s = 1 ->
  representable s e x <->
  (s = 0 /\ 0 <= x < 2 ^ e) \/ (s = 1 /\ - 2 ^ (e - 1) <= x < 2 ^ (e - 1)).
Proof. unfold representable. intros [->| ->]; cbn; lia. Qed.

Lemma pow2_double e : 1 <= e -> 2 ^ e = 2 * 2 ^ (e - 1).
Proof. intros He. rewrite <- Z.pow_succ_r by lia. f_equal. lia. Qed.

(** What [_get] reads is representable. *)
Lemma decode_representable s e x :
  1 <= e <= 31 -> s = 0 \/ s = 1 -> 0 <= x < 2 ^ e ->
  representable s e (decode s e x).
Proof.
  intros He [->| ->] Hx; unfold representable; cbn [Z.eqb].
  - now rewrite decode_unsigned.
  - rewrite decode_signed by done. pose proof (pow2_double e ltac:(lia)).
    destruct (Z.ltb_spec x (2 ^ (e - 1))); lia.
Qed.

(** The low [e] bits of a representable value decode to the value. *)
Lemma decode_mod s e x :
  1 <= e <= 31 -> s = 0 \/ s = 1 -> representable s e x ->
  decode s e (x mod 2 ^ e) = x.
Proof.
  intros He [->| ->]; unfold representable; cbn [Z.eqb]; intros Hx.
  - rewrite Z.mod_small by done. now apply decode_unsigned.
  - pose proof (pow2_double e ltac:(lia)) as Hd.
    assert (0 < 2 ^ (e - 1)) by (apply Z.pow_pos_nonneg; lia).
    destruct (Z.lt_ge_cases x 0).
    + assert (x mod 2 ^ e = x + 2 ^ e) as ->.
      { rewrite <- (Z.mod_add x 1), Z.mod_small; lia. }
      rewrite decode_signed by lia.
      destruct (Z.ltb_spec (x + 2 ^ e) (2 ^ (e - 1))); lia.
    + rewrite Z.mod_small by lia. rewrite decode_signed by lia.
      destruct (Z.ltb_spec x (2 ^ (e - 1))); lia.
Qed.

(** And only a representable value is read back from its low bits. *)
Lemma decode_mod_iff s e x :
  1 <= e <= 31 -> s = 0 \/ s = 1 ->
  decode s e (x mod 2 ^ e) = x <-> representable s e x.
Proof.
  intros He Hs. split; [|now apply decode_mod].
  intros <-. apply decode_representable; [done|done|].
  apply Z.mod_pos_bound. apply Z.pow_pos_nonneg; lia.
Qed.

Lemma decode_low_bits s e x :
  1 <= e <= 31 -> s = 0 \/ s = 1 -> 0 <= x < 2 ^ e ->
  decode s e x mod 2 ^ e = x.
Proof.
  intros He [->| ->] Hx.
  - rewrite decode_unsigned by done. now apply Z.mod_small.
  - rewrite decode_signed by done.
    destruct (Z.ltb_spec x (2 ^ (e - 1))); [now apply Z.mod_small|].
    rewrite <- (Z.mod_add _ 1), Z.mod_small; lia.
Qed.

(** A wider lane, or the same lane, holds what a lane held; after a switch
    to signed mode the lane has to be wider. *)
Lemma representable_mono s e s' e' x :
  1 <= e -> (s = s' /\ e <= e') \/ (s = 0 /\ s' = 1 /\ e < e') ->
  representable s e x -> representable s' e' x.
Proof.
  unfold representable. intros He [[<- Hle]|(-> & -> & Hlt)] Hx.
  - destruct (s =? 0).
    + assert (2 ^ e <= 2 ^ e') by (apply Z.pow_le_mono_r; lia). lia.
    + assert (2 ^ (e - 1) <= 2 ^ (e' - 1)) by (apply Z.pow_le_mono_r; lia). lia.
  - cbn [Z.eqb] in *.
    assert (2 ^ e <= 2 ^ (e' - 1)) by (apply Z.pow_le_mono_r; lia).
    assert (0 < 2 ^ (e' - 1)) by (apply Z.pow_pos_nonneg; lia). lia.
Qed.

(** ** [_put], lane by lane *)

Lemma put_word_bits e w off value k r :
  1 <= e <= 31 -> 0 <= off < 32 / e -> 0 <= k < 32 / e -> 0 <= r < e ->
  Z.testbit
    (Z.lor (Z.land w (to_uint (Z.lnot (to_uint (Z.shiftl (Z.ones e) (e * off))))))
           (to_uint (to_int (Z.shiftl value (e * off)))))
    (r + e * k)
  = if k =? off then Z.testbit value r
    else if k <? off then Z.testbit w (r + e * k)
    else Z.testbit w (r + e * k) || Z.testbit value (r + e * k - e * off).
Proof.
  intros He Hoff Hk Hr. pose proof (lane_offset_fits e He k Hk).
  pose proof (lane_offset_fits e He off Hoff).
  rewrite Z.lor_spec, Z.land_spec.
  rewrite !to_uint_testbit, to_int_testbit, Z.lnot_spec by lia.
  rewrite to_uint_testbit, !Z.shiftl_spec by lia.
  destruct (Z.eqb_spec k off) as [->|Hne].
  - replace (r + e * off - e * off) with r by lia.
    rewrite Z.ones_spec_low by lia. cbn. now rewrite andb_false_r.
  - destruct (Z.ltb_spec k off).
    + assert (e * (k + 1) <= e * off) by (apply Z.mul_le_mono_nonneg_l; lia).
      rewrite !(Z.testbit_neg_r _ (r + e * k - e * off)) by lia.
      cbn. now rewrite andb_true_r, orb_false_r.
    + assert (e * (off + 1) <= e * k) by (apply Z.mul_le_mono_nonneg_l; lia).
      rewrite Z.ones_spec_high by lia. cbn. now rewrite andb_true_r.
Qed.

Lemma raw_lane_insert_same e buf n w' idx :
  (n < length buf)%nat -> Z.to_nat (idx / (32 / e)) = n ->
  raw_lane e (<[n := w']> buf) idx = lane e w' (idx mod (32 / e)).
Proof.
  intros Hn Hq. unfold raw_lane. rewrite Hq.
  now rewrite (nth_lookup_Some _ _ _ w') by now apply list_lookup_insert_eq.
Qed.

Lemma raw_lane_insert_other e buf n w' idx :
  Z.to_nat (idx / (32 / e)) <> n ->
  raw_lane e (<[n := w']> buf) idx = raw_lane e buf idx.
Proof.
  intros Hq. unfold raw_lane.
  now rewrite !nth_lookup, list_lookup_insert_ne by done.
Qed.

(** [_put] writes the low [entropy] bits of the value to its lane and keeps
    the lanes below it and the other words; the lanes above it in the word
    are kept when the value fits the lane. *)
Lemma _put_slots buf index value e :
  1 <= e <= 31 -> 0 <= index < 2 ^ 31 ->
  index / (32 / e) < Z.of_nat (length buf) ->
  exists buf',
    _put buf index value e = Ok buf' /\ length buf' = length buf /\
    raw_lane e buf' index = value mod 2 ^ e /\
    forall idx, 0 <= idx -> idx <> index ->
      idx < index \/ idx / (32 / e) <> index / (32 / e) \/
        0 <= value < 2 ^ e ->
      raw_lane e buf' idx = raw_lane e buf idx.
Proof.
  intros He Hi Hlen. unfold _put.
  pose proof (vals_pos e He) as Hvals.
  destruct (index_split e index He Hi) as [Hj Hoff].
  pose proof (lane_offset_fits e He _ Hoff) as Hfit.
  destruct (buf_read_lt buf (index / (32 / e))) as (w & Hw & Hread); [lia|].
  rewrite VALS_IN_INT_ok by done. cbn [bind].
  rewrite (to_size_t_id (32 / e)) by (unfold size_t_range; lia).
  rewrite div_size_t_ok, mod_size_t_ok by lia. cbn [bind].
  rewrite shl_int_ok by lia. cbn [bind]. rewrite uint_mask by done.
  rewrite (to_int_id (index / _)) by (unfold int_range; lia).
  rewrite Hread. cbn [bind].
  rewrite (to_int_id (index mod _)) by (unfold int_range; lia).
  rewrite (to_int_id (e * _)) by (unfold int_range; lia).
  rewrite shl_uint_ok by lia. cbn [bind].
  rewrite shl_int_ok by lia. cbn [bind].
  rewrite buf_write_ok by lia.
  set (off := index mod (32 / e)) in *.
  set (j := index / (32 / e)) in *.
  eexists. split; [done|]. split; [apply length_insert|].
  split.
  - rewrite raw_lane_insert_same by (done || lia). fold off.
    apply Z.bits_inj'. intros r Hr.
    rewrite lane_testbit, Z.testbit_mod_pow2 by lia.
    destruct (Z.ltb_spec r e); [|done]. cbn [andb].
    rewrite put_word_bits by (done || lia). now rewrite Z.eqb_refl.
  - intros idx Hidx Hne Hcase.
    assert (0 <= idx / (32 / e)) by (apply Z.div_pos; lia).
    destruct (Z.eq_dec (idx / (32 / e)) j) as [Hsame|Hother].
    + rewrite raw_lane_insert_same by (done || lia).
      assert (0 <= idx mod (32 / e) < 32 / e) as Hk
        by (apply Z.mod_pos_bound; lia).
      pose proof (Z.div_mod idx (32 / e) ltac:(lia)) as Hidx_split.
      pose proof (Z.div_mod index (32 / e) ltac:(lia)) as Hindex_split.
      fold j off in Hindex_split. rewrite Hsame in Hidx_split.
      assert (idx mod (32 / e) <> off) as Hkne by lia.
      unfold raw_lane. rewrite Hsame. rewrite (nth_lookup_Some _ _ _ _ Hw).
      apply Z.bits_inj'. intros r Hr. rewrite !lane_testbit by lia.
      destruct (Z.ltb_spec r e); [|done]. cbn [andb].
      rewrite put_word_bits by (done || lia).
      destruct (Z.eqb_spec (idx mod (32 / e)) off); [done|].
      destruct (Z.ltb_spec (idx mod (32 / e)) off) as [|Hge]; [done|].
      destruct Hcase as [Hlt|[Hq|Hv]].
      * lia.
      * done.
      * assert (e * (off + 1) <= e * (idx mod (32 / e)))
          by (apply Z.mul_le_mono_nonneg_l; lia).
        rewrite (testbit_small value e) by (done || lia). apply orb_false_r.
    + apply raw_lane_insert_other. lia.
Qed.

(** ** What [insert] does to the lanes *)

Lemma _get_raw s buf index e :
  1 <= e <= 31 -> 0 <= index < 2 ^ 31 ->
  index / (32 / e) < Z.of_nat (length buf) ->
  _get s buf index e = Ok (decode s e (raw_lane e buf index)).
Proof.
  intros He Hi Hlen. destruct (index_split e index He Hi) as [Hq _].
  destruct (lookup_lt_is_Some_2 buf (Z.to_nat (index / (32 / e))))
    as [w Hw]; [lia|].
  unfold raw_lane. rewrite (_get_spec _ _ _ _ w) by done.
  now rewrite (nth_lookup_Some _ _ _ _ Hw).
Qed.

Lemma raw_lane_bounds e buf index : 0 <= e -> 0 <= raw_lane e buf index < 2 ^ e.
Proof. intros He. unfold raw_lane. now apply lane_range. Qed.

(** The repack loop writes, at every index below [size], the low bits of
    the value read at the old width. *)
Lemma repack_loop_lanes s buf e ve sz n : forall i nb,
  1 <= e <= 31 -> 1 <= ve <= 31 ->
  0 <= i -> i + Z.of_nat n = sz -> sz <= MAX_SIZE ->
  sz <= Z.of_nat (length buf) * (32 / e) ->
  sz <= Z.of_nat (length nb) * (32 / ve) ->
  (forall k, 0 <= k < i ->
     raw_lane ve nb k = decode s e (raw_lane e buf k) mod 2 ^ ve) ->
  exists nb',
    repack_loop s buf nb e ve i n = Ok nb' /\ length nb' = length nb /\
    forall k, 0 <= k < sz ->
      raw_lane ve nb' k = decode s e (raw_lane e buf k) mod 2 ^ ve.
Proof.
  induction n as [|n IH]; intros i nb He Hve Hi Hn Hsz Hbuf Hnb Hdone.
  - exists nb. split; [done|]. split; [done|].
    intros k Hk. apply Hdone. lia.
  - cbn [repack_loop]. unfold MAX_SIZE in Hsz.
    pose proof (vals_pos e He). pose proof (vals_pos ve Hve).
    rewrite (to_size_t_id i) by (unfold size_t_range; lia).
    rewrite _get_raw; [|done|lia|apply Z.div_lt_upper_bound; lia].
    cbn [bind].
    destruct (_put_slots nb i (decode s e (raw_lane e buf i)) ve)
      as (nb' & -> & Hlen & Hhere & Hothers);
      [done|lia|apply Z.div_lt_upper_bound; lia|].
    cbn [bind]. rewrite (to_int_id (i + 1)) by (unfold int_range; lia).
    destruct (IH (i + 1) nb') as (nb'' & -> & Hlen' & Hall); try done; try lia.
    { intros k Hk. destruct (Z.eq_dec k i) as [->|Hne]; [done|].
      rewrite Hothers by lia. apply Hdone. lia. }
    exists nb''. split; [done|]. split; [congruence|done].
Qed.

Lemma repack_lanes st ve sw :
  wf st -> 1 <= ve <= 31 -> sw = 0 \/ sw = 1 ->
  (entropy st <? ve) || negb (sw =? 0) = true ->
  exists st',
    repack st ve sw = Ok st' /\ wf st' /\ size st' = size st /\
    entropy st' = ve /\
    signed_values st' = (if sw =? 0 then signed_values st else 1) /\
    forall k, 0 <= k < size st ->
      raw_lane ve (buffer st') k =
      decode (signed_values st) (entropy st)
        (raw_lane (entropy st) (buffer st) k) mod 2 ^ ve.
Proof.
  intros Hwf Hve Hsw Htest. unfold repack. rewrite Htest.
  pose proof (wf_words st Hwf) as Hwords.
  destruct Hwf as [He Hs Hsz Ha Hc Ht].
  unfold entropy_ok, capacity_ok, allocated_lanes, BITS_IN_INT, MAX_SIZE in *.
  pose proof (vals_pos ve Hve) as Hv.
  rewrite VALS_IN_INT_ok by done. cbn [bind].
  rewrite div_int_ok by lia. cbn [bind].
  set (q := size st / (32 / ve)).
  assert (0 <= q <= size st) as Hq.
  { subst q. split; [apply Z.div_pos; lia|].
    apply Z.div_le_upper_bound; nia. }
  rewrite (to_int_id (q + 1)) by (unfold int_range; lia).
  rewrite (to_size_t_id (q + 1)) by (unfold size_t_range; lia).
  rewrite (to_size_t_id (SIZEOF_INT * _))
    by (unfold size_t_range, SIZEOF_INT; lia).
  assert (size st < (q + 1) * (32 / ve)) as Hcover.
  { subst q. pose proof (Z.mul_succ_div_gt (size st) (32 / ve)). lia. }
  destruct (repack_loop_lanes (signed_values st) (buffer st) (entropy st) ve
              (size st) (Z.to_nat (size st)) 0
              (malloc_zeroed (SIZEOF_INT * (q + 1))))
    as (nb & -> & Hlen & Hlanes); try done; try lia.
  { unfold MAX_SIZE. lia. }
  { rewrite malloc_zeroed_length by lia. lia. }
  cbn [bind]. rewrite malloc_zeroed_length in Hlen by lia.
  eexists. split; [done|].
  assert (to_int (SIZEOF_INT * (q + 1)) = SIZEOF_INT * (q + 1)) as Hal
    by (apply to_int_id; unfold int_range, SIZEOF_INT; lia).
  split; [|cbn [entropy buffer size allocated signed_values]; auto].
  split; unfold entropy_ok, capacity_ok, allocated_lanes, BITS_IN_INT, MAX_SIZE;
    cbn [entropy buffer size allocated signed_values]; rewrite ?Hal, ?Hlen.
  - lia.
  - destruct (sw =? 0); auto.
  - lia.
  - lia.
  - unfold SIZEOF_INT. rewrite (Z.mul_comm 4), Z.div_mul by lia. lia.
  - unfold SIZEOF_INT. rewrite (Z.mul_comm 4), Z.div_mul by lia. lia.
Qed.

(** Growth appends zeroed words: no lane changes, and the lanes past the
    old buffer read zero, as they did. *)
Lemma nth_app_zeros (l : list Z) (m k : nat) :
  nth k (l ++ replicate m 0) 0 = nth k l 0.
Proof.
  destruct (Nat.lt_ge_cases k (length l)).
  - now apply app_nth1.
  - rewrite app_nth2, (nth_overflow l) by lia.
    rewrite nth_lookup.
    destruct (replicate m 0 !! (k - length l)%nat) as [y|] eqn:Hy; [|done].
    apply lookup_replicate in Hy as [-> _]. done.
Qed.

Lemma grow_lanes st index :
  wf st -> index_ok index ->
  exists st',
    grow st index = Ok st' /\ wf st' /\ index < size st' /\
    size st <= size st' /\
    entropy st' = entropy st /\ signed_values st' = signed_values st /\
    (length (buffer st) <= length (buffer st'))%nat /\
    forall e k, raw_lane e (buffer st') k = raw_lane e (buffer st) k.
Proof.
  intros Hwf [Hi Hmax]. unfold grow.
  pose proof (wf_words st Hwf) as Hwords.
  pose proof Hwf as [He Hs Hsz Ha Hc Ht].
  unfold entropy_ok, capacity_ok, allocated_lanes, BITS_IN_INT, MAX_SIZE in *.
  rewrite (to_size_t_id (size st)) by (unfold size_t_range; lia).
  destruct (Z.geb_spec index (size st)) as [Hge|Hlt].
  2: { exists st. split; [done|]. split; [done|]. split; [lia|].
       split; [lia|]. repeat split; (done || lia). }
  pose proof (vals_pos (entropy st) He) as Hv.
  rewrite VALS_IN_INT_ok by done. cbn [bind].
  rewrite (to_size_t_id (32 / _)) by (unfold size_t_range; lia).
  rewrite div_size_t_ok by lia. cbn [bind].
  set (vals := 32 / entropy st) in *.
  set (q := index / vals).
  assert (0 <= q <= index) as Hq.
  { subst q. split; [apply Z.div_pos; lia|].
    apply Z.div_le_upper_bound; nia. }
  assert (q * vals <= index < (q + 1) * vals) as Hcover.
  { subst q. pose proof (Z.mul_div_le index vals).
    pose proof (Z.mul_succ_div_gt index vals). lia. }
  assert (size st / vals <= q) as Hmono
    by (subst q; apply Z.div_le_mono; lia).
  rewrite (to_size_t_id (q + 1)) by (unfold size_t_range; lia).
  rewrite (to_int_id (q + 1)) by (unfold int_range; lia).
  rewrite (to_size_t_id (q + 1)) by (unfold size_t_range; lia).
  rewrite (to_size_t_id (SIZEOF_INT * _))
    by (unfold size_t_range, SIZEOF_INT; lia).
  rewrite (to_int_id (SIZEOF_INT * _)) by (unfold int_range, SIZEOF_INT; lia).
  rewrite (to_size_t_id (SIZEOF_INT * _))
    by (unfold size_t_range, SIZEOF_INT; lia).
  rewrite (to_size_t_id (allocated st))
    by (unfold size_t_range, SIZEOF_INT in *; lia).
  unfold memcpy. rewrite Hwords, Nat2Z.id.
  assert (length (malloc_zeroed (SIZEOF_INT * (q + 1))) = Z.to_nat (q + 1))
    as Hzeros by (apply malloc_zeroed_length; lia).
  destruct (Nat.leb_spec (length (buffer st)) (length (buffer st))); [|lia].
  destruct (Nat.leb_spec (length (buffer st))
              (length (malloc_zeroed (SIZEOF_INT * (q + 1))))); [|lia].
  cbn [andb bind].
  rewrite take_ge by lia.
  unfold malloc_zeroed at 1. rewrite drop_replicate.
  assert (to_int ((q + 1) * vals) = (q + 1) * vals) as Hsize
    by (apply to_int_id; unfold int_range; nia).
  eexists. split; [done|].
  cbn [entropy buffer size allocated signed_values].
  assert (length (buffer st ++
            replicate (Z.to_nat (SIZEOF_INT * (q + 1) / SIZEOF_INT)
                       - length (buffer st)) 0) = Z.to_nat (q + 1)) as Hlen.
  { rewrite length_app, length_replicate.
    unfold SIZEOF_INT. rewrite (Z.mul_comm 4), Z.div_mul by lia. lia. }
  split; [|repeat split; try done; try lia].
  - split; unfold entropy_ok, capacity_ok, allocated_lanes, BITS_IN_INT, MAX_SIZE;
      cbn [entropy buffer size allocated signed_values];
      fold vals; rewrite ?Hsize, ?Hlen.
    + lia.
    + done.
    + nia.
    + lia.
    + unfold SIZEOF_INT. rewrite (Z.mul_comm 4), Z.div_mul by lia. lia.
    + unfold SIZEOF_INT. rewrite (Z.mul_comm 4), Z.div_mul by lia.
      rewrite Z.div_mul by lia. lia.
  - intros e k. unfold raw_lane. now rewrite nth_app_zeros.
Qed.

Lemma select_width_selected st v :
  int_range v ->
  select_width (signed_values st) v =
    Ok (selected_width v, if switches_sign st v then 1 else 0).
Proof.
  intros Hv. rewrite select_width_spec by done.
  unfold selected_width, switches_sign.
  destruct (bits_with_sign v >? 16), (signed_values st =? 0), (v <? 0); done.
Qed.

Lemma selected_width_range v : int_range v -> 1 <= selected_width v <= 31.
Proof.
  intros Hv. unfold selected_width.
  pose proof (bits_with_sign_range v Hv).
  destruct (Z.gtb_spec (bits_with_sign v) 16); lia.
Qed.

(** A non-negative value fits the width selected for it. *)
Lemma nonneg_fits_selected v :
  int_range v -> 0 <= v -> v < 2 ^ selected_width v.
Proof.
  unfold int_range, selected_width. intros Hv Hpos.
  destruct (Z.gtb_spec (bits_with_sign v) 16); [lia|].
  unfold bits_with_sign, bits_of_magnitude.
  destruct (Z.ltb_spec v 0); [lia|]. rewrite Z.abs_eq, Z.add_0_r by lia.
  destruct (Z.eq_dec v 0) as [->|]; [done|].
  pose proof (Z.log2_spec v ltac:(lia)) as Hlog.
  replace (Z.log2 v + 1) with (Z.succ (Z.log2 v)) by lia. lia.
Qed.

(** The effect of [insert] on the encoding and on the lanes: the lane of
    [index] holds the low bits of [value]; a lane below [size] holds the low
    bits of the value it held, provided it lies below [index], or in
    another word, or [value] is not negative. *)
Lemma insert_effect st index value :
  wf st -> index_ok index -> int_range value ->
  exists st',
    insert st index value = Ok st' /\ wf st' /\
    index < size st' /\ size st <= size st' /\
    entropy st' =
      (if (entropy st <? selected_width value) || switches_sign st value
       then selected_width value else entropy st) /\
    signed_values st' =
      (if switches_sign st value then 1 else signed_values st) /\
    raw_lane (entropy st') (buffer st') index = value mod 2 ^ entropy st' /\
    forall j, 0 <= j < size st -> j <> index ->
      j < index \/ j / (32 / entropy st') <> index / (32 / entropy st') \/
        0 <= value ->
      raw_lane (entropy st') (buffer st') j =
      decode (signed_values st) (entropy st)
        (raw_lane (entropy st) (buffer st) j) mod 2 ^ entropy st'.
Proof.
  intros Hwf Hidx Hv. unfold insert.
  rewrite select_width_selected by done. cbn [bind].
  pose proof (selected_width_range value Hv) as Hve.
  set (ve := selected_width value) in *.
  set (sws := switches_sign st value).
  pose proof Hwf as [He Hs _ _ _ _]. unfold entropy_ok, BITS_IN_INT in He.
  assert (Hrepack : exists st1,
    repack st ve (if sws then 1 else 0) = Ok st1 /\ wf st1 /\
    size st1 = size st /\
    entropy st1 = (if (entropy st <? ve) || sws then ve else entropy st) /\
    signed_values st1 = (if sws then 1 else signed_values st) /\
    forall k, 0 <= k < size st ->
      raw_lane (entropy st1) (buffer st1) k =
      decode (signed_values st) (entropy st)
        (raw_lane (entropy st) (buffer st) k) mod 2 ^ entropy st1).
  { assert (negb ((if sws then 1 else 0) =? 0) = sws) as Hsw
      by (destruct sws; done).
    destruct ((entropy st <? ve) || sws) eqn:Htest.
    - destruct (repack_lanes st ve (if sws then 1 else 0)) as
        (st1 & Hr & Hwf1 & Hsz1 & He1 & Hs1 & Hlanes); try done.
      { destruct sws; auto. }
      { now rewrite Hsw. }
      exists st1. split; [done|]. split; [done|]. split; [done|].
      split; [done|]. split.
      + rewrite Hs1. destruct sws; done.
      + intros k Hk. rewrite He1. now apply Hlanes.
    - exists st. unfold repack. rewrite Hsw, Htest.
      apply orb_false_iff in Htest as [_ ->].
      split; [done|]. split; [done|]. split; [done|].
      split; [done|]. split; [done|].
      intros k Hk. symmetry. apply decode_low_bits; [done|done|].
      apply raw_lane_bounds. lia. }
  destruct Hrepack as (st1 & -> & Hwf1 & Hsz1 & He1 & Hs1 & Hlanes1).
  cbn [bind].
  destruct (grow_lanes st1 index Hwf1 Hidx)
    as (st2 & -> & Hwf2 & Hlt & Hsz2 & He2 & Hs2 & _ & Hlanes2).
  cbn [bind].
  pose proof (wf_lanes_bound st2 Hwf2) as Hb.
  destruct (wf_word_of_index st2 index Hwf2) as [Hi Hj];
    [destruct Hidx; lia|].
  destruct (_put_slots (buffer st2) index value (entropy st2))
    as (nb & -> & Hlen & Hhere & Hothers); [apply Hwf2|done|done|].
  cbn [bind]. eexists. split; [done|].
  cbn [entropy buffer size allocated signed_values].
  split.
  { destruct Hwf2 as [He' Hs' Hsz' Ha' Hc' Ht'].
    split; unfold entropy_ok, capacity_ok, allocated_lanes in *;
      cbn [entropy buffer size allocated signed_values]; try done.
    now rewrite Hlen. }
  split; [done|]. split; [lia|].
  split; [now rewrite He2|]. split; [now rewrite Hs2|].
  split; [done|].
  intros j Hj' Hne Hcase. rewrite Hothers.
  - rewrite Hlanes2, He2. apply Hlanes1. lia.
  - lia.
  - done.
  - destruct Hcase as [H|[H|H]]; auto. right. right. split; [done|].
    apply Z.lt_le_trans with (2 ^ ve); [now apply nonneg_fits_selected|].
    apply Z.pow_le_mono_r; [lia|]. rewrite He2, He1.
    destruct (Z.ltb_spec (entropy st) ve); cbn [orb]; [lia|].
    destruct sws; lia.
Qed.

(** ** Reading back after [insert] *)

Lemma bits_of_magnitude_bounds v :
  v <> 0 ->
  2 ^ (bits_of_magnitude v - 1) <= Z.abs v < 2 ^ bits_of_magnitude v.
Proof.
  intros Hv. unfold bits_of_magnitude.
  pose proof (Z.log2_spec (Z.abs v) ltac:(lia)) as Hlog.
  replace (Z.log2 (Z.abs v) + 1 - 1) with (Z.log2 (Z.abs v)) by lia.
  replace (Z.log2 (Z.abs v) + 1) with (Z.succ (Z.log2 (Z.abs v))) by lia.
  done.
Qed.

Lemma get_at_lane st index :
  wf st -> 0 <= index < size st ->
  get st index =
    Ok (decode (signed_values st) (entropy st)
          (raw_lane (entropy st) (buffer st) index)).
Proof.
  intros Hwf Hi. apply get_raw; [done|].
  pose proof (wf_lanes_bound st Hwf). lia.
Qed.

(** In terms of the container before the insertion: the inserted value is
    representable afterwards exactly when it is [storable]. *)
Lemma representable_after_insert st v e' s' :
  wf st -> int_range v ->
  e' = (if (entropy st <? selected_width v) || switches_sign st v
        then selected_width v else entropy st) ->
  s' = (if switches_sign st v then 1 else signed_values st) ->
  representable s' e' v <-> storable st v.
Proof.
  intros Hwf Hv -> ->. pose proof Hwf as [He Hs _ _ _ _].
  unfold entropy_ok, BITS_IN_INT in He. unfold int_range in Hv.
  unfold storable, switches_sign, selected_width.
  pose proof (bits_with_sign_wide v) as Hwide.
  pose proof (pow2_le_31 (entropy st) ltac:(lia)) as Hpe.
  assert (Hmono : forall a b, 0 <= a <= b -> 2 ^ a <= 2 ^ b)
    by (intros; apply Z.pow_le_mono_r; lia).
  assert (Hpos : forall a, 0 <= a -> 0 < 2 ^ a)
    by (intros; apply Z.pow_pos_nonneg; lia).
  destruct (Z.eq_dec v 0) as [->|Hnz].
  { (* zero takes one bit and never switches *)
    change (bits_with_sign 0) with 1. change (1 >? 16) with false.
    change (0 <? 0) with false. cbn [orb]. rewrite andb_false_r, orb_false_r.
    destruct (Z.ltb_spec (entropy st) 1); [lia|].
    pose proof (Hpos (entropy st - 1) ltac:(lia)).
    unfold representable. destruct Hs as [Hs|Hs]; rewrite Hs; cbn [Z.eqb].
    all: lia. }
  pose proof (bits_of_magnitude_bounds v Hnz) as Hb.
  unfold bits_with_sign in *.
  set (b := bits_of_magnitude v) in *.
  assert (1 <= b) by (unfold b, bits_of_magnitude;
                      pose proof (Z.log2_nonneg (Z.abs v)); lia).
  destruct (Z.ltb_spec v 0) as [Hneg|Hpos'].
  - (* a negative value: the container is signed afterwards *)
    rewrite Z.abs_neq in Hb by lia. cbn [orb]. rewrite andb_true_r.
    replace (b + 1 - 1) with b in * by lia.
    assert (representable
              (if signed_values st =? 0 then 1 else signed_values st)
              (if (entropy st <? (if b + 1 >? 16 then 31 else b + 1))
                  || (signed_values st =? 0)
               then (if b + 1 >? 16 then 31 else b + 1) else entropy st) v
            <-> - 2 ^ 30 <= v) as Hiff; [|rewrite Hiff; lia].
    assert ((if signed_values st =? 0 then 1 else signed_values st) = 1)
      as -> by (destruct Hs as [->| ->]; done).
    unfold representable. cbn [Z.eqb].
    destruct (Z.gtb_spec (b + 1) 16) as [Hclamp|Hfit].
    + assert ((if (entropy st <? 31) || (signed_values st =? 0)
               then 31 else entropy st) = 31) as ->.
      { destruct (Z.ltb_spec (entropy st) 31); cbn [orb]; [done|].
        destruct (signed_values st =? 0); lia. }
      change (31 - 1) with 30. pose proof (Hpos 30 ltac:(lia)). lia.
    + assert (v > - 2 ^ 15) by lia.
      assert (2 ^ 15 < 2 ^ 30) by (apply Z.pow_lt_mono_r; lia).
      destruct ((entropy st <? b + 1) || (signed_values st =? 0)) eqn:Ht.
      * replace (b + 1 - 1) with b by lia. pose proof (Hpos b ltac:(lia)). lia.
      * apply orb_false_iff in Ht as [Ht _]. apply Z.ltb_ge in Ht.
        pose proof (Hmono b (entropy st - 1) ltac:(lia)).
        pose proof (Hpos (entropy st - 1) ltac:(lia)). lia.
  - (* a positive value *)
    rewrite Z.abs_eq in Hb by lia. rewrite Z.add_0_r in *. cbn [orb].
    destruct (Z.gtb_spec b 16) as [Hclamp|Hfit].
    + assert (2 ^ 16 <= v) by lia. rewrite andb_true_r.
      assert ((if signed_values st =? 0 then 1 else signed_values st) = 1)
        as -> by (destruct Hs as [->| ->]; done).
      assert ((if (entropy st <? 31) || (signed_values st =? 0)
               then 31 else entropy st) = 31) as ->.
      { destruct (Z.ltb_spec (entropy st) 31); cbn [orb]; [done|].
        destruct (signed_values st =? 0); lia. }
      unfold representable. cbn [Z.eqb]. change (31 - 1) with 30.
      pose proof (Hpos 30 ltac:(lia)). lia.
    + assert (v < 2 ^ 16) by lia. rewrite andb_false_r, orb_false_r.
      assert (2 ^ 16 < 2 ^ 30) by (apply Z.pow_lt_mono_r; lia).
      unfold representable.
      destruct Hs as [Hs|Hs]; rewrite Hs; cbn [Z.eqb].
      * destruct (Z.ltb_spec (entropy st) b).
        -- lia.
        -- pose proof (Hmono b (entropy st) ltac:(lia)). lia.
      * destruct (Z.ltb_spec (entropy st) b).
        -- pose proof (Hmono (entropy st - 1) (b - 1) ltac:(lia)).
           pose proof (Hpos (b - 1) ltac:(lia)). lia.
        -- pose proof (Hpos (entropy st - 1) ltac:(lia)). lia.
Qed.

(** X1.  [insert] returns on a well-formed container, and [get] at the
    inserted index then reads the inserted value exactly when the value is
    [storable]: negative down to [-2^30], or from [2^16] up to [2^30 - 1],
    or below [2^16] on an unsigned container, or below [2^(entropy-1)] on
    a signed one. *)
Theorem insert_then_get st index value :
  wf st -> index_ok index -> int_range value ->
  exists st',
    insert st index value = Ok st' /\
    (get st' index = Ok value <-> storable st value).
Proof.
  intros Hwf Hidx Hv.
  destruct (insert_effect st index value Hwf Hidx Hv)
    as (st' & Hins & Hwf' & Hlt & _ & He' & Hs' & Hlane & _).
  exists st'. split; [done|].
  rewrite get_at_lane by (done || destruct Hidx; lia). rewrite Hlane.
  rewrite <- (representable_after_insert st value _ _ Hwf Hv He' Hs').
  rewrite <- (decode_mod_iff (signed_values st') (entropy st') value);
    [|apply Hwf'|apply Hwf'].
  split; [now intros [= ->]|now intros ->].
Qed.

Lemma insert_then_get_witness :
  wf signed_sample /\ index_ok 50 /\ int_range (-1000) /\
  exists st',
    insert signed_sample 50 (-1000) = Ok st' /\
    (get st' 50 = Ok (-1000) <-> storable signed_sample (-1000)).
Proof.
  assert (Hwf : wf signed_sample) by (split; concrete).
  assert (Hidx : index_ok 50) by concrete.
  assert (Hv : int_range (-1000)) by concrete.
  split; [exact Hwf|]. split; [exact Hidx|]. split; [exact Hv|].
  exact (insert_then_get signed_sample 50 (-1000) Hwf Hidx Hv).
Defined.

(** The bound on the index is a real precondition of the properties of
    [insert]: the growth block keeps [new_size] in an [int] and [_put] its
    word index [j].  [insert(2^37, 1)] on a fresh container has
    [new_size = (int)(2^32 + 1) = 1] and [j = (int)2^32 = 0]: it returns
    with [size] still 32, and element 0 reads 1. *)
Lemma insert_truncates_index :
  exists st,
    insert (init 0) (2 ^ 37) 1 = Ok st /\ size st = 32 /\
    allocated st = 4 /\ get (init 0) 0 = Ok 0 /\ get st 0 = Ok 1.
Proof. eexists. split; [vm_compute; reflexivity|]. concrete. Qed.

(** X2.  On a well-formed container, for an index in range ([0 <= index]
    and [index + 32 <= 2^28]) and an [int] value: [insert] returns, and an
    element at another index below [size], which lies below the inserted
    index, or in another word, or beside a non-negative value, survives
    the insertion exactly when its value is representable in the encoding
    after the insertion. *)
Theorem insert_element_survives st index value :
  wf st -> index_ok index -> int_range value ->
  exists st',
    insert st index value = Ok st' /\
    forall j x,
      0 <= j < size st -> j <> index ->
      j < index \/ j / (32 / entropy st') <> index / (32 / entropy st') \/
        0 <= value ->
      get st j = Ok x ->
      (get st' j = Ok x <->
       representable (signed_values st') (entropy st') x).
Proof.
  intros Hwf Hidx Hv.
  destruct (insert_effect st index value Hwf Hidx Hv)
    as (st' & Hins & Hwf' & _ & Hsz & _ & _ & _ & Hlanes).
  exists st'. split; [done|]. intros j x Hj Hne Hcase Hget.
  rewrite get_at_lane in Hget by done. injection Hget as <-.
  rewrite get_at_lane by (done || lia). rewrite Hlanes by done.
  rewrite <- (decode_mod_iff (signed_values st') (entropy st'));
    [|apply Hwf'|apply Hwf'].
  split; [now intros [= ->]|now intros ->].
Qed.

Lemma insert_element_survives_witness :
  wf unsigned_sample /\ index_ok 2 /\ int_range (-1) /\
  exists st', insert unsigned_sample 2 (-1) = Ok st'.
Proof.
  assert (Hwf : wf unsigned_sample) by (split; concrete).
  assert (Hidx : index_ok 2) by concrete.
  assert (Hv : int_range (-1)) by concrete.
  split; [exact Hwf|]. split; [exact Hidx|]. split; [exact Hv|].
  destruct (insert_element_survives unsigned_sample 2 (-1) Hwf Hidx Hv)
    as (st' & Hins & _).
  exists st'. exact Hins.
Defined.

(** X3.  On a well-formed container, for an index in range ([0 <= index]
    and [index + 32 <= 2^28]) and an [int] value: unless the insertion
    switches the container to signed mode at a width that does not exceed
    the current one, [insert] returns and the elements below the inserted
    index, and every other element below [size] when the value is not
    negative, read as before. *)
Theorem insert_keeps_elements st index value :
  wf st -> index_ok index -> int_range value ->
  switches_sign st value = false \/ entropy st < selected_width value ->
  exists st',
    insert st index value = Ok st' /\
    forall j, 0 <= j < size st -> j <> index -> j < index \/ 0 <= value ->
              get st' j = get st j.
Proof.
  intros Hwf Hidx Hv Hkeep.
  destruct (insert_effect st index value Hwf Hidx Hv)
    as (st' & Hins & Hwf' & _ & Hsz & He' & Hs' & _ & Hlanes).
  exists st'. split; [done|]. intros j Hj Hne Hcase.
  pose proof Hwf as [He Hs _ _ _ _]. unfold entropy_ok, BITS_IN_INT in He.
  rewrite (get_at_lane st) by done.
  rewrite get_at_lane by (done || lia).
  rewrite Hlanes by (done || tauto). f_equal.
  apply decode_mod; [apply Hwf'|apply Hwf'|].
  apply (representable_mono (signed_values st) (entropy st)); [lia| |].
  - rewrite He', Hs'. destruct (switches_sign st value) eqn:Hsw.
    + right. destruct Hkeep as [|Hlt]; [done|].
      rewrite orb_true_r. unfold switches_sign in Hsw.
      apply andb_true_iff in Hsw as [Hzero _].
      apply Z.eqb_eq in Hzero. auto.
    + left. split; [done|]. rewrite orb_false_r.
      destruct (Z.ltb_spec (entropy st) (selected_width value)); lia.
  - apply decode_representable; [done|done|]. apply raw_lane_bounds. lia.
Qed.

Lemma insert_keeps_elements_witness :
  wf signed_sample /\ index_ok 3 /\ int_range (-100) /\
  (switches_sign signed_sample (-100) = false \/
   entropy signed_sample < selected_width (-100)) /\
  exists st',
    insert signed_sample 3 (-100) = Ok st' /\
    forall j, 0 <= j < size signed_sample -> j <> 3 -> j < 3 \/ 0 <= -100 ->
              get st' j = get signed_sample j.
Proof.
  assert (Hwf : wf signed_sample) by (split; concrete).
  assert (Hidx : index_ok 3) by concrete.
  assert (Hv : int_range (-100)) by concrete.
  assert (Hkeep : switches_sign signed_sample (-100) = false \/
                  entropy signed_sample < selected_width (-100))
    by (left; reflexivity).
  split; [exact Hwf|]. split; [exact Hidx|]. split; [exact Hv|].
  split; [exact Hkeep|].
  exact (insert_keeps_elements signed_sample 3 (-100) Hwf Hidx Hv Hkeep).
Defined.

(** X4.  How the encoding adapts, on a well-formed container, for an index
    in range ([0 <= index] and [index + 32 <= 2^28]) and an [int] value:
    an insertion that switches the container to signed mode sets [entropy]
    to the width selected for the value; any other insertion raises
    [entropy] to that width if it is larger, and leaves the sign mode
    alone.  [size] never decreases and, for such an index, covers the
    inserted index. *)
Theorem insert_encoding st index value :
  wf st -> index_ok index -> int_range value ->
  exists st',
    insert st index value = Ok st' /\
    signed_values st' =
      (if switches_sign st value then 1 else signed_values st) /\
    entropy st' =
      (if switches_sign st value then selected_width value
       else Z.max (entropy st) (selected_width value)) /\
    size st <= size st' /\ index < size st'.
Proof.
  intros Hwf Hidx Hv.
  destruct (insert_effect st index value Hwf Hidx Hv)
    as (st' & Hins & _ & Hlt & Hsz & He' & Hs' & _).
  exists st'. repeat split; try done. rewrite He'.
  destruct (switches_sign st value); [now rewrite orb_true_r|].
  rewrite orb_false_r.
  destruct (Z.ltb_spec (entropy st) (selected_width value)); lia.
Qed.

Lemma insert_encoding_witness :
  wf unsigned_sample /\ index_ok 70 /\ int_range 100000 /\
  exists st',
    insert unsigned_sample 70 100000 = Ok st' /\
    signed_values st' = 1 /\ entropy st' = 31 /\
    size unsigned_sample <= size st' /\ 70 < size st'.
Proof.
  assert (Hwf : wf unsigned_sample) by (split; concrete).
  assert (Hidx : index_ok 70) by concrete.
  assert (Hv : int_range 100000) by concrete.
  split; [exact Hwf|]. split; [exact Hidx|]. split; [exact Hv|].
  exact (insert_encoding unsigned_sample 70 100000 Hwf Hidx Hv).
Defined.

(** ** Runs of insertions *)

(** One insertion of a value below [2^16] into an unsigned container. *)
Lemma insert_unsigned st index value :
  wf st -> signed_values st = 0 -> index_ok index -> 0 <= value < 2 ^ 16 ->
  exists st',
    insert st index value = Ok st' /\ wf st' /\ signed_values st' = 0 /\
    index < size st' /\ size st <= size st' /\
    get st' index = Ok value /\
    (forall j, 0 <= j < size st -> j <> index -> get st' j = get st j) /\
    entropy st' = Z.max (entropy st) (bits_of_magnitude value).
Proof.
  intros Hwf Hs Hidx Hval.
  assert (Hv : int_range value) by (unfold int_range; lia).
  assert (Hsw : switches_sign st value = false).
  { unfold switches_sign. rewrite Hs. cbn [Z.eqb andb].
    destruct (Z.ltb_spec value 0); [lia|]. cbn [orb].
    pose proof (bits_with_sign_wide value).
    destruct (Z.gtb_spec (bits_with_sign value) 16); [lia|done]. }
  destruct (insert_effect st index value Hwf Hidx Hv)
    as (st' & Hins & Hwf' & Hlt & Hsz & He' & Hs' & Hlane & Hlanes).
  rewrite Hsw in *. rewrite orb_false_r in He'.
  pose proof Hwf as [He _ _ _ _ _]. unfold entropy_ok, BITS_IN_INT in He.
  exists st'. split; [done|]. split; [done|]. split; [congruence|].
  split; [done|]. split; [done|]. split; [|split].
  3: { rewrite He'. unfold selected_width, bits_with_sign.
       destruct (Z.ltb_spec value 0); [lia|]. rewrite Z.add_0_r.
       pose proof (bits_with_sign_wide value) as Hwide.
       unfold bits_with_sign in Hwide.
       destruct (Z.ltb_spec value 0); [lia|]. rewrite Z.add_0_r in Hwide.
       destruct (Z.gtb_spec (bits_of_magnitude value) 16); [lia|].
       destruct (Z.ltb_spec (entropy st) (bits_of_magnitude value)); lia. }
  - rewrite get_at_lane by (done || destruct Hidx; lia). rewrite Hlane.
    f_equal. apply decode_mod; [apply Hwf'|apply Hwf'|].
    apply (representable_after_insert st value _ _ Hwf Hv).
    + now rewrite Hsw, orb_false_r.
    + now rewrite Hsw.
    + right. right. split; [done|]. auto.
  - intros j Hj Hne. rewrite (get_at_lane st) by done.
    rewrite get_at_lane by (done || lia).
    rewrite Hlanes by (done || lia). f_equal.
    apply decode_mod; [apply Hwf'|apply Hwf'|].
    apply (representable_mono (signed_values st) (entropy st)); [lia| |].
    + left. split; [congruence|]. rewrite He'.
      destruct (Z.ltb_spec (entropy st) (selected_width value)); lia.
    + apply decode_representable; [done|auto|]. apply raw_lane_bounds. lia.
Qed.

Lemma inserts_unsigned ops : forall st,
  wf st -> signed_values st = 0 ->
  Forall (fun op => index_ok (fst op) /\ 0 <= snd op < 2 ^ 16) ops ->
  List.NoDup (map fst ops) ->
  exists st',
    inserts st ops = Ok st' /\ wf st' /\ signed_values st' = 0 /\
    size st <= size st' /\
    (forall i v, In (i, v) ops -> 0 <= i < size st' /\ get st' i = Ok v) /\
    (forall j, 0 <= j < size st -> ~ In j (map fst ops) ->
               get st' j = get st j).
Proof.
  induction ops as [|[index value] ops IH]; intros st Hwf Hs Hops Hnd.
  - exists st. split; [done|]. split; [done|]. split; [done|].
    split; [lia|]. split; [intros i v []|done].
  - apply Forall_cons in Hops as [[Hidx Hval] Hops]. cbn [fst snd] in *.
    cbn [map fst] in Hnd. apply NoDup_cons_iff in Hnd as [Hfresh Hnd].
    destruct (insert_unsigned st index value Hwf Hs Hidx Hval)
      as (st1 & Hins & Hwf1 & Hs1 & Hlt1 & Hsz1 & Hget1 & Hkeep1 & _).
    destruct (IH st1 Hwf1 Hs1 Hops Hnd)
      as (st' & Hrun & Hwf' & Hs' & Hsz' & Hall & Hkeep).
    exists st'. cbn [inserts]. rewrite Hins. cbn [bind].
    split; [done|]. split; [done|]. split; [done|]. split; [lia|]. split.
    + intros i v [[= <- <-]|Hin]; [|now apply Hall].
      destruct Hidx as [Hi0 _]. split; [lia|].
      rewrite Hkeep by (done || lia). done.
    + intros j Hj Hnot. cbn [map fst] in Hnot.
      rewrite Hkeep by (try lia; intros Hin; apply Hnot; now right).
      apply Hkeep1; [done|]. intros ->. apply Hnot. now left.
Qed.

(** X5.  Round trip on an unsigned container: after insertions of values
    below [2^16] at distinct indices, in any order, [get] reads every
    inserted value at its index, and the elements at the other indices
    read as before. *)
Theorem inserts_round_trip st ops :
  wf st -> signed_values st = 0 ->
  Forall (fun op => index_ok (fst op) /\ 0 <= snd op < 2 ^ 16) ops ->
  List.NoDup (map fst ops) ->
  exists st',
    inserts st ops = Ok st' /\
    (forall i v, In (i, v) ops -> get st' i = Ok v) /\
    (forall j, 0 <= j < size st -> ~ In j (map fst ops) ->
               get st' j = get st j).
Proof.
  intros Hwf Hs Hops Hnd.
  destruct (inserts_unsigned ops st Hwf Hs Hops Hnd)
    as (st' & Hrun & _ & _ & _ & Hall & Hkeep).
  exists st'. split; [done|]. split; [|done].
  intros i v Hin. now apply Hall.
Qed.

Lemma inserts_round_trip_witness :
  wf (init 7) /\ signed_values (init 7) = 0 /\
  exists st',
    inserts (init 7) [(9, 300); (2, 1); (40, 65535)] = Ok st' /\
    (forall i v, In (i, v) [(9, 300); (2, 1); (40, 65535)] ->
                 get st' i = Ok v).
Proof.
  assert (Hwf : wf (init 7)) by (split; concrete).
  assert (Hs : signed_values (init 7) = 0) by reflexivity.
  assert (Hops : Forall (fun op => index_ok (fst op) /\ 0 <= snd op < 2 ^ 16)
                   [(9, 300); (2, 1); (40, 65535)])
    by (repeat constructor; concrete).
  assert (Hnd : List.NoDup (map fst [(9, 300); (2, 1); (40, 65535)])).
  { repeat constructor; cbn; intuition discriminate. }
  split; [exact Hwf|]. split; [exact Hs|].
  destruct (inserts_round_trip (init 7) _ Hwf Hs Hops Hnd)
    as (st' & Hrun & Hall & _).
  exists st'. split; [exact Hrun|exact Hall].
Defined.

(** *** The sanity runs of [main] *)

Lemma inserts_app ops1 : forall st ops2,
  inserts st (ops1 ++ ops2) = (st1 <- inserts st ops1 ;; inserts st1 ops2).
Proof.
  induction ops1 as [|[index value] ops1 IH]; intros st ops2; [done|].
  cbn [inserts app]. destruct (insert st index value); cbn [bind]; [|done].
  apply IH.
Qed.

Lemma ascending_S f n :
  ascending f (S n) = ascending f n ++ [(Z.of_nat n, f (Z.of_nat n))].
Proof. unfold ascending. now rewrite seq_S, map_app. Qed.

Lemma bits_of_magnitude_mono a b :
  0 <= a <= b -> bits_of_magnitude a <= bits_of_magnitude b.
Proof.
  intros Hab. unfold bits_of_magnitude. rewrite !Z.abs_eq by lia.
  pose proof (Z.log2_le_mono a b). lia.
Qed.

(** The run [insert(i, i)] for [i = 0 .. n-1] from [init], with the
    invariant it keeps. *)
Lemma identity_run junk n :
  1 <= Z.of_nat n <= 65536 ->
  exists st,
    inserts (init junk) (ascending (fun i => i) n) = Ok st /\
    wf st /\ signed_values st = 0 /\ Z.of_nat n <= size st /\
    entropy st = bits_of_magnitude (Z.of_nat n - 1) /\
    forall i, 0 <= i < Z.of_nat n -> get st i = Ok i.
Proof.
  intros Hn.
  induction n as [|n IH]; [lia|].
  assert (Hidx : index_ok (Z.of_nat n))
    by (unfold index_ok, BITS_IN_INT, MAX_SIZE; lia).
  assert (Hval : 0 <= Z.of_nat n < 2 ^ 16) by lia.
  rewrite ascending_S, inserts_app.
  destruct n as [|m].
  - (* the first insertion, on the fresh container *)
    cbn [ascending seq map inserts bind].
    change (Z.of_nat 0) with 0 in *. change (Z.of_nat 1) with 1 in *.
    destruct (insert_unsigned (init junk) 0 0 (init_wf junk) eq_refl
                Hidx Hval)
      as (st & -> & Hwf & Hs & Hlt & _ & Hget & _ & He).
    exists st. cbn [bind]. split; [done|]. split; [done|].
    split; [done|]. split; [lia|]. split; [exact He|].
    intros i Hi. replace i with 0 by lia. done.
  - destruct IH as (st0 & -> & Hwf0 & Hs0 & Hsz0 & He0 & Hall0); [lia|].
    cbn [bind inserts].
    destruct (insert_unsigned st0 (Z.of_nat (S m)) (Z.of_nat (S m))
                Hwf0 Hs0 Hidx Hval)
      as (st & -> & Hwf & Hs & Hlt & Hsz & Hget & Hkeep & He).
    exists st. cbn [bind]. split; [done|]. split; [done|].
    split; [done|]. split; [lia|]. split.
    + rewrite He, He0.
      replace (Z.of_nat (S (S m)) - 1) with (Z.of_nat (S m)) by lia.
      pose proof (bits_of_magnitude_mono (Z.of_nat (S m) - 1)
                    (Z.of_nat (S m)) ltac:(lia)). lia.
    + intros i Hi. destruct (Z.eq_dec i (Z.of_nat (S m))) as [->|Hne];
        [done|].
      rewrite Hkeep by lia. apply Hall0. lia.
Qed.

(** X6.  The first sanity run of [main], for any number of elements up to
    its 65536: after [insert(i, i)] for [i = 0 .. n-1] on a container just
    initialised, whatever its block held, [get(i)] is [i] for every [i],
    the container is unsigned, and [entropy] is the number of bits of
    [n - 1]. *)
Theorem sanity_run_identity junk n :
  1 <= Z.of_nat n <= 65536 ->
  exists st,
    inserts (init junk) (ascending (fun i => i) n) = Ok st /\
    signed_values st = 0 /\
    entropy st = bits_of_magnitude (Z.of_nat n - 1) /\
    forall i, 0 <= i < Z.of_nat n -> get st i = Ok i.
Proof.
  intros Hn.
  destruct (identity_run junk n Hn) as (st & Hins & _ & Hs & _ & He & Hall).
  eauto.
Qed.

Lemma sanity_run_identity_witness :
  1 <= Z.of_nat 1000 <= 65536 /\
  exists st,
    inserts (init 0) (ascending (fun i => i) 1000) = Ok st /\
    signed_values st = 0 /\
    entropy st = bits_of_magnitude (Z.of_nat 1000 - 1) /\
    forall i, 0 <= i < Z.of_nat 1000 -> get st i = Ok i.
Proof.
  assert (Hn : 1 <= Z.of_nat 1000 <= 65536) by lia.
  split; [exact Hn|]. exact (sanity_run_identity 0 1000 Hn).
Defined.

(** One insertion, with what it does to the element written and to the
    elements below it. *)
Lemma insert_step st index value :
  wf st -> index_ok index -> int_range value -> storable st value ->
  exists st',
    insert st index value = Ok st' /\ wf st' /\
    index < size st' /\ size st <= size st' /\
    representable (signed_values st') (entropy st') value /\
    signed_values st' =
      (if switches_sign st value then 1 else signed_values st) /\
    get st' index = Ok value /\
    forall j x, 0 <= j < size st -> j < index -> get st j = Ok x ->
                representable (signed_values st') (entropy st') x ->
                get st' j = Ok x.
Proof.
  intros Hwf Hidx Hv Hstore.
  destruct (insert_effect st index value Hwf Hidx Hv)
    as (st' & Hins & Hwf' & Hlt & Hsz & He' & Hs' & Hlane & Hlanes).
  apply (representable_after_insert st value _ _ Hwf Hv He' Hs') in Hstore.
  exists st'. split; [done|]. split; [done|]. split; [done|].
  split; [done|]. split; [done|]. split; [done|]. split.
  - rewrite get_at_lane by (done || destruct Hidx; lia). rewrite Hlane.
    f_equal. apply decode_mod; [apply Hwf'|apply Hwf'|done].
  - intros j x Hj Hbelow Hget Hrep.
    rewrite get_at_lane in Hget by done. injection Hget as <-.
    rewrite get_at_lane by (done || lia). rewrite Hlanes by (done || lia).
    f_equal. apply decode_mod; [apply Hwf'|apply Hwf'|done].
Qed.

(** X7.  The second sanity run of [main]: after [insert(i, -i)] for
    [i = 0 .. n-1], in this order, on any well-formed container, [get(i)]
    is [-i] for every [i]; if some value was negative the container is
    signed. *)
Theorem sanity_run_negation st n :
  wf st -> Z.of_nat n + BITS_IN_INT <= MAX_SIZE ->
  exists st',
    inserts st (ascending Z.opp n) = Ok st' /\
    ((2 <= n)%nat -> signed_values st' = 1) /\
    forall i, 0 <= i < Z.of_nat n -> get st' i = Ok (- i).
Proof.
  intros Hwf Hn.
  assert (Hrun : exists st',
    inserts st (ascending Z.opp n) = Ok st' /\ wf st' /\
    Z.of_nat n <= size st' /\
    ((2 <= n)%nat -> signed_values st' = 1) /\
    forall i, 0 <= i < Z.of_nat n -> get st' i = Ok (- i)).
  { induction n as [|n IH].
    - exists st. cbn. split; [done|]. split; [done|].
      split; [apply Hwf|]. split; [lia|]. intros i Hi. lia.
    - unfold BITS_IN_INT, MAX_SIZE in *.
      destruct IH as (st0 & Hrun0 & Hwf0 & Hsz0 & Hs0 & Hall0); [lia|].
      rewrite ascending_S, inserts_app, Hrun0. cbn [bind inserts].
      assert (Hidx : index_ok (Z.of_nat n))
        by (unfold index_ok, BITS_IN_INT, MAX_SIZE; lia).
      assert (Hv : int_range (- Z.of_nat n)) by (unfold int_range; lia).
      pose proof Hwf0 as [He0 Hsg0 _ _ _ _].
      unfold entropy_ok, BITS_IN_INT in He0.
      assert (Hstore : storable st0 (- Z.of_nat n)).
      { unfold storable. destruct n as [|m]; [|left; lia].
        right. right. cbn. split; [lia|]. right.
        apply Z.pow_pos_nonneg; lia. }
      destruct (insert_step st0 (Z.of_nat n) (- Z.of_nat n)
                  Hwf0 Hidx Hv Hstore)
        as (st' & -> & Hwf' & Hlt & Hsz & Hrep & Hs' & Hget & Hbelow).
      exists st'. cbn [bind]. split; [done|]. split; [done|].
      split; [lia|].
      assert (Hsigned : (1 <= n)%nat -> signed_values st' = 1).
      { intros Hpos. rewrite Hs'. unfold switches_sign.
        destruct (Z.ltb_spec (- Z.of_nat n) 0); [|lia]. cbn [orb].
        rewrite andb_true_r. destruct Hsg0 as [->| ->]; done. }
      split; [intros; apply Hsigned; lia|].
      intros i Hi. destruct (Z.eq_dec i (Z.of_nat n)) as [->|Hne]; [done|].
      apply Hbelow; [lia|lia|apply Hall0; lia|].
      (* the elements below are no larger in magnitude than the new one *)
      assert (1 <= n)%nat as Hpos by lia.
      unfold representable in *. rewrite (Hsigned Hpos) in *.
      cbn [Z.eqb] in *. lia. }
  destruct Hrun as (st' & Hins & _ & _ & Hs & Hall). eauto.
Qed.

Lemma sanity_run_negation_witness :
  wf unsigned_sample /\ Z.of_nat 1000 + BITS_IN_INT <= MAX_SIZE /\
  exists st',
    inserts unsigned_sample (ascending Z.opp 1000) = Ok st' /\
    ((2 <= 1000)%nat -> signed_values st' = 1) /\
    forall i, 0 <= i < Z.of_nat 1000 -> get st' i = Ok (- i).
Proof.
  assert (Hwf : wf unsigned_sample) by (split; concrete).
  assert (Hn : Z.of_nat 1000 + BITS_IN_INT <= MAX_SIZE)
    by (unfold BITS_IN_INT, MAX_SIZE; lia).
  split; [exact Hwf|]. split; [exact Hn|].
  exact (sanity_run_negation unsigned_sample 1000 Hwf Hn).
Defined.

(** ** The two steps of [insert] on their own *)

(** X8.  The repack to a larger width keeps every element: after
    [repack] to a width above [entropy], with or without a switch to
    signed mode, [get] reads what it read before at every index below
    [size]. *)
Theorem repack_preserves_values st ve sw :
  wf st -> 1 <= ve <= 31 -> sw = 0 \/ sw = 1 -> entropy st < ve ->
  exists st',
    repack st ve sw = Ok st' /\ entropy st' = ve /\ size st' = size st /\
    forall k, 0 <= k < size st -> get st' k = get st k.
Proof.
  intros Hwf Hve Hsw Hgrow.
  destruct (repack_lanes st ve sw Hwf Hve Hsw)
    as (st' & Hr & Hwf' & Hsz & He' & Hs' & Hlanes).
  { destruct (Z.ltb_spec (entropy st) ve); [done|lia]. }
  exists st'. split; [done|]. split; [done|]. split; [done|].
  intros k Hk. pose proof Hwf as [He Hs _ _ _ _].
  unfold entropy_ok, BITS_IN_INT in He.
  rewrite (get_at_lane st) by done. rewrite get_at_lane by (done || lia).
  rewrite He', Hlanes by done. f_equal.
  apply decode_mod; [done|rewrite Hs'; destruct (sw =? 0); auto|].
  apply (representable_mono (signed_values st) (entropy st)); [lia| |].
  - rewrite Hs'. destruct (Z.eqb_spec sw 0); [left; lia|].
    destruct Hs as [Hs|Hs]; [right; lia|left; lia].
  - apply decode_representable; [done|done|]. apply raw_lane_bounds. lia.
Qed.

Lemma repack_preserves_values_witness :
  wf signed_sample /\ 1 <= 20 <= 31 /\ (0 = 0 \/ 0 = 1) /\
  entropy signed_sample < 20 /\
  exists st',
    repack signed_sample 20 0 = Ok st' /\ entropy st' = 20 /\
    size st' = size signed_sample /\
    forall k, 0 <= k < size signed_sample ->
              get st' k = get signed_sample k.
Proof.
  assert (Hwf : wf signed_sample) by (split; concrete).
  assert (Hve : 1 <= 20 <= 31) by lia.
  assert (Hsw : 0 = 0 \/ 0 = 1) by (left; reflexivity).
  assert (He : entropy signed_sample < 20) by concrete.
  split; [exact Hwf|]. split; [exact Hve|]. split; [exact Hsw|].
  split; [exact He|].
  exact (repack_preserves_values signed_sample 20 0 Hwf Hve Hsw He).
Defined.

Lemma raw_lane_past_buffer e buf k :
  1 <= e <= 31 -> Z.of_nat (length buf) * (32 / e) <= k ->
  raw_lane e buf k = 0.
Proof.
  intros He Hk. pose proof (vals_pos e He). unfold raw_lane.
  rewrite nth_overflow.
  - unfold lane. now rewrite Z.shiftr_0_l, Z.land_0_l.
  - assert (Z.of_nat (length buf) <= k / (32 / e))
      by (apply Z.div_le_lower_bound; lia). lia.
Qed.

(** X9.  Growth keeps every element and zero-fills, on a well-formed
    container and for an index in range ([0 <= index] and
    [index + 32 <= 2^28]): [grow] returns, the index is then below [size],
    [get] reads what it read before below the old allocation, and reads 0
    at every index from the old allocation up to the new [size]. *)
Theorem grow_zero_fills st index :
  wf st -> index_ok index ->
  exists st',
    grow st index = Ok st' /\ index < size st' /\
    (forall k, 0 <= k < allocated_lanes st -> get st' k = get st k) /\
    (forall k, allocated_lanes st <= k < size st' -> get st' k = Ok 0).
Proof.
  intros Hwf Hidx.
  destruct (grow_lanes st index Hwf Hidx)
    as (st' & Hg & Hwf' & Hlt & Hsz & He' & Hs' & Hlen & Hlanes).
  exists st'. split; [done|]. split; [done|].
  pose proof Hwf as [He Hs _ _ _ _]. unfold entropy_ok, BITS_IN_INT in He.
  pose proof (wf_lanes_bound st Hwf) as Hb.
  pose proof (wf_lanes_bound st' Hwf') as Hb'.
  pose proof (wf_words st Hwf) as Hwords.
  pose proof (wf_words st' Hwf') as Hwords'.
  pose proof (vals_pos _ He) as Hvals.
  pose proof (wf_size st Hwf) as Hsize.
  split.
  - intros k Hk. rewrite (get_raw st) by done.
    rewrite get_raw; [now rewrite He', Hs', Hlanes|done|].
    unfold allocated_lanes, BITS_IN_INT in *.
    rewrite Hwords', He'. rewrite Hwords in Hk.
    split; [lia|]. apply Z.lt_le_trans with (1 := proj2 Hk).
    apply Z.mul_le_mono_nonneg_r; lia.
  - intros k Hk. rewrite get_at_lane by (done || lia).
    rewrite He', Hs', Hlanes.
    rewrite raw_lane_past_buffer;
      [|lia|unfold allocated_lanes, BITS_IN_INT in Hk; rewrite <- Hwords; lia].
    f_equal. replace 0 with (0 mod 2 ^ entropy st) at 1 by apply Zmod_0_l.
    apply decode_mod; [lia|done|].
    assert (0 < 2 ^ entropy st) by (apply Z.pow_pos_nonneg; lia).
    assert (0 < 2 ^ (entropy st - 1)) by (apply Z.pow_pos_nonneg; lia).
    unfold representable. destruct (signed_values st =? 0); lia.
Qed.

Lemma grow_zero_fills_witness :
  wf unsigned_sample /\ index_ok 200 /\
  exists st',
    grow unsigned_sample 200 = Ok st' /\ 200 < size st' /\
    (forall k, 0 <= k < allocated_lanes unsigned_sample ->
               get st' k = get unsigned_sample k) /\
    (forall k, allocated_lanes unsigned_sample <= k < size st' ->
               get st' k = Ok 0).
Proof.
  assert (Hwf : wf unsigned_sample) by (split; concrete).
  assert (Hidx : index_ok 200) by concrete.
  split; [exact Hwf|]. split; [exact Hidx|].
  exact (grow_zero_fills unsigned_sample 200 Hwf Hidx).
Defined.

(** ** Reading *)

(** X10.  [get] at any index below the allocated lanes returns a value of
    the current encoding: in [0 .. 2^entropy - 1] on an unsigned container,
    in [-2^(entropy-1) .. 2^(entropy-1) - 1] on a signed one. *)
Theorem get_representable st index :
  wf st -> 0 <= index < allocated_lanes st ->
  exists v, get st index = Ok v /\
            representable (signed_values st) (entropy st) v.
Proof.
  intros Hwf Hi. rewrite get_raw by done. eexists. split; [done|].
  pose proof Hwf as [He Hs _ _ _ _]. unfold entropy_ok, BITS_IN_INT in He.
  apply decode_representable; [lia|done|]. apply raw_lane_bounds. lia.
Qed.

Lemma get_representable_witness :
  wf signed_sample /\ 0 <= 2 < allocated_lanes signed_sample /\
  exists v, get signed_sample 2 = Ok v /\
    representable (signed_values signed_sample) (entropy signed_sample) v.
Proof.
  assert (Hwf : wf signed_sample) by (split; concrete).
  assert (Hi : 0 <= 2 < allocated_lanes signed_sample) by concrete.
  split; [exact Hwf|]. split; [exact Hi|].
  exact (get_representable signed_sample 2 Hwf Hi).
Defined.

Lemma buf_read_outside buf j :
  Z.of_nat (length buf) <= j -> buf_read buf j = Err OutOfBounds.
Proof.
  intros Hj. unfold buf_read, in_bounds.
  destruct (Z.ltb_spec j (Z.of_nat (length buf))); [lia|].
  now rewrite andb_false_r.
Qed.

(** X11.  [get] checks no bound: at an index at or beyond the allocated
    lanes it reads outside the buffer. *)
Theorem get_past_allocation st index :
  wf st -> allocated_lanes st <= index < 2 ^ 31 ->
  get st index = Err OutOfBounds.
Proof.
  intros Hwf Hi. pose proof (wf_words st Hwf) as Hwords.
  pose proof Hwf as [He _ _ _ Hc _].
  unfold entropy_ok, capacity_ok, allocated_lanes, BITS_IN_INT in *.
  pose proof (vals_pos _ He) as Hvals.
  assert (0 <= allocated st / SIZEOF_INT) by lia.
  assert (0 <= index) by nia.
  destruct (index_split _ index He ltac:(lia)) as [Hq Hoff].
  unfold get, _get. rewrite VALS_IN_INT_ok by done. cbn [bind].
  rewrite (to_size_t_id (32 / _)) by (unfold size_t_range; lia).
  rewrite div_size_t_ok, mod_size_t_ok by lia. cbn [bind].
  rewrite shl_int_ok by lia. cbn [bind].
  rewrite (to_int_id (index / _)) by (unfold int_range; lia).
  rewrite buf_read_outside; [done|].
  rewrite <- Hwords. apply Z.div_le_lower_bound; lia.
Qed.

Lemma get_past_allocation_witness :
  wf unsigned_sample /\
  allocated_lanes unsigned_sample <= 1000 < 2 ^ 31 /\
  get unsigned_sample 1000 = Err OutOfBounds.
Proof.
  assert (Hwf : wf unsigned_sample) by (split; concrete).
  assert (Hi : allocated_lanes unsigned_sample <= 1000 < 2 ^ 31) by concrete.
  split; [exact Hwf|]. split; [exact Hi|].
  exact (get_past_allocation unsigned_sample 1000 Hwf Hi).
Defined.

(** ** The aggregate scans *)

Lemma get_in_range st k :
  wf st -> 0 <= k < size st -> exists v, get st k = Ok v /\ int_range v.
Proof.
  intros Hwf Hk. rewrite get_at_lane by done. eexists. split; [done|].
  apply to_int_range.
Qed.

Lemma max_loop_spec st n : forall i acc,
  wf st -> 0 <= i -> i + Z.of_nat n = size st ->
  exists m,
    max_loop st acc i n = Ok m /\ acc <= m /\
    (forall k, i <= k < size st -> exists v, get st k = Ok v /\ v <= m) /\
    (m = acc \/ exists k, i <= k < size st /\ get st k = Ok m).
Proof.
  induction n as [|n IH]; intros i acc Hwf Hi Hn.
  - exists acc. cbn. split; [done|]. split; [lia|]. split; [|auto].
    intros k Hk. lia.
  - cbn [max_loop]. pose proof (wf_size st Hwf) as Hsz.
    unfold MAX_SIZE in Hsz.
    rewrite (to_size_t_id i) by (unfold size_t_range; lia).
    change (_get (signed_values st) (buffer st) i (entropy st))
      with (get st i).
    destruct (get_in_range st i Hwf ltac:(lia)) as (v & Hget & Hv).
    rewrite Hget. cbn [bind].
    rewrite (to_int_id (i + 1)) by (unfold int_range; lia).
    destruct (IH (i + 1) (if acc <? v then v else acc) Hwf)
      as (m & -> & Hacc & Hall & Hattained); [lia|lia|].
    exists m. split; [done|].
    assert (acc <= m /\ v <= m) as [Ha Hvm]
      by (destruct (Z.ltb_spec acc v); lia).
    split; [done|]. split.
    + intros k Hk. destruct (Z.eq_dec k i) as [->|]; [eauto|].
      apply Hall. lia.
    + destruct Hattained as [->|(k & Hk & Hgk)].
      * destruct (Z.ltb_spec acc v); [|auto].
        right. exists i. split; [lia|done].
      * right. exists k. split; [lia|done].
Qed.

Lemma min_loop_spec st n : forall i acc,
  wf st -> 0 <= i -> i + Z.of_nat n = size st ->
  exists m,
    min_loop st acc i n = Ok m /\ m <= acc /\
    (forall k, i <= k < size st -> exists v, get st k = Ok v /\ m <= v) /\
    (m = acc \/ exists k, i <= k < size st /\ get st k = Ok m).
Proof.
  induction n as [|n IH]; intros i acc Hwf Hi Hn.
  - exists acc. cbn. split; [done|]. split; [lia|]. split; [|auto].
    intros k Hk. lia.
  - cbn [min_loop]. pose proof (wf_size st Hwf) as Hsz.
    unfold MAX_SIZE in Hsz.
    rewrite (to_size_t_id i) by (unfold size_t_range; lia).
    change (_get (signed_values st) (buffer st) i (entropy st))
      with (get st i).
    destruct (get_in_range st i Hwf ltac:(lia)) as (v & Hget & Hv).
    rewrite Hget. cbn [bind].
    rewrite (to_int_id (i + 1)) by (unfold int_range; lia).
    destruct (IH (i + 1) (if acc >? v then v else acc) Hwf)
      as (m & -> & Hacc & Hall & Hattained); [lia|lia|].
    exists m. split; [done|].
    assert (m <= acc /\ m <= v) as [Ha Hvm]
      by (destruct (Z.gtb_spec acc v); lia).
    split; [done|]. split.
    + intros k Hk. destruct (Z.eq_dec k i) as [->|]; [eauto|].
      apply Hall. lia.
    + destruct Hattained as [->|(k & Hk & Hgk)].
      * destruct (Z.gtb_spec acc v); [|auto].
        right. exists i. split; [lia|done].
      * right. exists k. split; [lia|done].
Qed.

(** The maximum is an element, when there is one. *)
Lemma max_value_attained st :
  wf st -> 0 < size st ->
  exists m k, max_value st = Ok m /\ 0 <= k < size st /\ get st k = Ok m /\
    forall j, 0 <= j < size st -> exists v, get st j = Ok v /\ v <= m.
Proof.
  intros Hwf Hpos. unfold max_value.
  rewrite shl_int_ok by (unfold BITS_IN_INT; lia). cbn [bind].
  change (to_int (to_uint (to_int (Z.shiftl 1 (BITS_IN_INT - 1)))))
    with (- 2 ^ 31).
  destruct (max_loop_spec st (Z.to_nat (size st)) 0 (- 2 ^ 31) Hwf)
    as (m & -> & Hacc & Hall & Hattained); [lia|lia|].
  destruct Hattained as [->|(k & Hk & Hgk)]; [|eauto 10].
  destruct (get_in_range st 0 Hwf ltac:(lia)) as (v & Hget & Hv).
  destruct (Hall 0 ltac:(lia)) as (v' & Hget' & Hle).
  assert (v' = v) as -> by congruence. unfold int_range in Hv.
  exists (- 2 ^ 31), 0. split; [done|]. split; [lia|]. split; [|done].
  rewrite Hget. f_equal. lia.
Qed.

(** X12.  [max_value] returns, and what it returns is at least every
    element below [size]; it is one of the elements when [size] is positive,
    and the least [int] when [size] is 0. *)
Theorem max_value_is_maximum st :
  wf st ->
  exists m,
    max_value st = Ok m /\
    (forall k, 0 <= k < size st -> exists v, get st k = Ok v /\ v <= m) /\
    (0 < size st -> exists k, 0 <= k < size st /\ get st k = Ok m) /\
    (size st = 0 -> m = - 2 ^ 31).
Proof.
  intros Hwf. pose proof (wf_size st Hwf) as Hsz.
  destruct (Z.eq_dec (size st) 0) as [Hzero|Hpos].
  - exists (- 2 ^ 31). unfold max_value.
    rewrite shl_int_ok by (unfold BITS_IN_INT; lia). cbn [bind].
    rewrite Hzero. cbn [Z.to_nat max_loop].
    split; [done|]. split; [intros; lia|]. split; [lia|done].
  - destruct (max_value_attained st Hwf ltac:(lia))
      as (m & k & Hmax & Hk & Hget & Hall).
    exists m. split; [done|]. split; [done|]. split; [eauto|lia].
Qed.

Lemma max_value_is_maximum_witness :
  wf signed_sample /\
  exists m,
    max_value signed_sample = Ok m /\
    (forall k, 0 <= k < size signed_sample ->
               exists v, get signed_sample k = Ok v /\ v <= m).
Proof.
  assert (Hwf : wf signed_sample) by (split; concrete).
  split; [exact Hwf|].
  destruct (max_value_is_maximum signed_sample Hwf) as (m & Hmax & Hall & _).
  exists m. split; [exact Hmax|exact Hall].
Defined.

(** X13.  [min_value] returns, and what it returns is at most every
    element below [size]; it is one of the elements when [size] is positive,
    and the greatest [int] when [size] is 0. *)
Theorem min_value_is_minimum st :
  wf st ->
  exists m,
    min_value st = Ok m /\
    (forall k, 0 <= k < size st -> exists v, get st k = Ok v /\ m <= v) /\
    (0 < size st -> exists k, 0 <= k < size st /\ get st k = Ok m) /\
    (size st = 0 -> m = 2 ^ 31 - 1).
Proof.
  intros Hwf. pose proof (wf_size st Hwf) as Hsz. unfold min_value.
  rewrite shl_int_ok by (unfold BITS_IN_INT; lia). cbn [bind].
  change (to_int (to_uint
            (to_uint (to_int (Z.shiftl 1 (BITS_IN_INT - 1))) - 1)))
    with (2 ^ 31 - 1).
  destruct (min_loop_spec st (Z.to_nat (size st)) 0 (2 ^ 31 - 1) Hwf)
    as (m & -> & Hacc & Hall & Hattained); [lia|lia|].
  exists m. split; [done|]. split; [done|]. split.
  - intros Hpos. destruct Hattained as [->|(k & Hk & Hgk)]; [|eauto].
    destruct (get_in_range st 0 Hwf ltac:(lia)) as (v & Hget & Hv).
    destruct (Hall 0 ltac:(lia)) as (v' & Hget' & Hle).
    assert (v' = v) as -> by congruence. unfold int_range in Hv.
    exists 0. split; [lia|]. rewrite Hget. f_equal. lia.
  - intros Hzero. destruct Hattained as [->|(k & Hk & _)]; [done|lia].
Qed.

Lemma min_value_is_minimum_witness :
  wf signed_sample /\
  exists m,
    min_value signed_sample = Ok m /\
    (forall k, 0 <= k < size signed_sample ->
               exists v, get signed_sample k = Ok v /\ m <= v).
Proof.
  assert (Hwf : wf signed_sample) by (split; concrete).
  split; [exact Hwf|].
  destruct (min_value_is_minimum signed_sample Hwf) as (m & Hmin & Hall & _).
  exists m. split; [exact Hmin|exact Hall].
Defined.

(** ** [find] with the other operations *)

(** A non-negative value that [get] reads somewhere is found, at or
    before that index. *)
Lemma find_reads st v k :
  wf st -> 0 <= v -> 0 <= k < allocated_lanes st -> get st k = Ok v ->
  exists r, find st v = Ok r /\ 0 <= r <= k /\ get st r = Ok v.
Proof.
  intros Hwf Hv Hk Hget.
  pose proof Hwf as [He Hs _ _ _ _]. unfold entropy_ok, BITS_IN_INT in He.
  assert (int_range v /\
          representable (signed_values st) (entropy st) v) as [Hint Hrep].
  { rewrite get_raw in Hget by done. injection Hget as <-.
    split; [apply to_int_range|].
    apply decode_representable; [lia|done|]. apply raw_lane_bounds. lia. }
  assert (Hfits : signed_values st = 0 \/ 0 <= v < 2 ^ (entropy st - 1)).
  { unfold representable in Hrep.
    destruct Hs as [Hs|Hs]; rewrite Hs in Hrep; cbn [Z.eqb] in Hrep;
      [auto|right; lia]. }
  destruct (find_raw st v Hwf Hint) as (r & Hr & [[-> Hnone]|(Hlt & Hraw & Hbefore)]).
  - exfalso. apply (Hnone k Hk). now apply get_eq_iff_raw.
  - exists r. split; [done|]. split.
    + destruct (Z.le_gt_cases r k); [lia|]. exfalso.
      apply (Hbefore k ltac:(lia)). now apply get_eq_iff_raw.
    + now apply get_eq_iff_raw.
Qed.

(** X14.  On a well-formed container and for an index in range
    ([0 <= index] and [index + 32 <= 2^28]): the insertion of a storable
    non-negative value returns, and [find] then finds the value: it
    answers an index at or before the inserted one, at which [get] reads
    the value. *)
Theorem find_after_insert st index value :
  wf st -> index_ok index -> int_range value ->
  0 <= value -> storable st value ->
  exists st' r,
    insert st index value = Ok st' /\ find st' value = Ok r /\
    0 <= r <= index /\ get st' r = Ok value.
Proof.
  intros Hwf Hidx Hv Hpos Hstore.
  destruct (insert_step st index value Hwf Hidx Hv Hstore)
    as (st' & Hins & Hwf' & Hlt & _ & _ & _ & Hget & _).
  pose proof (wf_lanes_bound st' Hwf') as Hb.
  destruct (find_reads st' value index Hwf' Hpos) as (r & Hr & Hle & Hgr);
    [destruct Hidx; lia|done|].
  exists st', r. auto.
Qed.

Lemma find_after_insert_witness :
  wf unsigned_sample /\ index_ok 90 /\ int_range 5 /\ 0 <= 5 /\
  storable unsigned_sample 5 /\
  exists st' r,
    insert unsigned_sample 90 5 = Ok st' /\ find st' 5 = Ok r /\
    0 <= r <= 90 /\ get st' r = Ok 5.
Proof.
  assert (Hwf : wf unsigned_sample) by (split; concrete).
  assert (Hidx : index_ok 90) by concrete.
  assert (Hv : int_range 5) by concrete.
  assert (Hpos : 0 <= 5) by lia.
  assert (Hstore : storable unsigned_sample 5).
  { right. right. split; [lia|]. left. reflexivity. }
  split; [exact Hwf|]. split; [exact Hidx|]. split; [exact Hv|].
  split; [exact Hpos|]. split; [exact Hstore|].
  exact (find_after_insert unsigned_sample 90 5 Hwf Hidx Hv Hpos Hstore).
Defined.

(** X15.  [find] of the maximum: when the maximum of a container with
    elements is not negative, [find] answers an index below [size] at which
    [get] reads it. *)
Theorem find_max_value st :
  wf st -> 0 < size st ->
  exists m,
    max_value st = Ok m /\
    (0 <= m ->
     exists r, find st m = Ok r /\ 0 <= r < size st /\ get st r = Ok m).
Proof.
  intros Hwf Hpos.
  destruct (max_value_attained st Hwf Hpos) as (m & k & Hmax & Hk & Hget & _).
  exists m. split; [done|]. intros Hm.
  pose proof (wf_lanes_bound st Hwf) as Hb.
  destruct (find_reads st m k Hwf Hm ltac:(lia) Hget) as (r & Hr & Hle & Hgr).
  exists r. split; [done|]. split; [lia|done].
Qed.

Lemma find_max_value_witness :
  wf unsigned_sample /\ 0 < size unsigned_sample /\
  exists m,
    max_value unsigned_sample = Ok m /\
    (0 <= m ->
     exists r, find unsigned_sample m = Ok r /\
               0 <= r < size unsigned_sample /\
               get unsigned_sample r = Ok m).
Proof.
  assert (Hwf : wf unsigned_sample) by (split; concrete).
  assert (Hpos : 0 < size unsigned_sample) by concrete.
  split; [exact Hwf|]. split; [exact Hpos|].
  exact (find_max_value unsigned_sample Hwf Hpos).
Defined.

(** X20.  The search of [main] after its first sanity run: once
    [insert(i, i)] has run for [i = 0 .. n-1] from [init], [find(i)] answers
    [i] for every [i] below [n], so [find(loop - 1)] is [loop - 1] and
    [get] reads the value there. *)
Theorem sanity_run_find junk n :
  1 <= Z.of_nat n <= 65536 ->
  exists st,
    inserts (init junk) (ascending (fun i => i) n) = Ok st /\
    forall i, 0 <= i < Z.of_nat n ->
              find st i = Ok i /\ get st i = Ok i.
Proof.
  intros Hn.
  destruct (identity_run junk n Hn) as (st & Hins & Hwf & _ & Hsz & _ & Hall).
  exists st. split; [done|]. intros i Hi.
  pose proof (wf_lanes_bound st Hwf) as Hb.
  destruct (find_reads st i i Hwf ltac:(lia) ltac:(lia) (Hall i Hi))
    as (r & Hr & Hle & Hgr).
  rewrite (Hall r) in Hgr by lia. injection Hgr as ->.
  split; [done|]. now apply Hall.
Qed.

Lemma sanity_run_find_witness :
  1 <= Z.of_nat 1000 <= 65536 /\
  exists st,
    inserts (init 0) (ascending (fun i => i) 1000) = Ok st /\
    forall i, 0 <= i < Z.of_nat 1000 ->
              find st i = Ok i /\ get st i = Ok i.
Proof.
  assert (Hn : 1 <= Z.of_nat 1000 <= 65536) by lia.
  split; [exact Hn|]. exact (sanity_run_find 0 1000 Hn).
Defined.

Lemma find_negative_witness :
  wf signed_sample /\ int_range (-3) /\ -3 < 0 /\
  get signed_sample 0 = Ok (-3) /\ find signed_sample (-3) = Ok NOT_FOUND.
Proof.
  assert (Hwf : wf signed_sample) by (split; concrete).
  assert (Hv : int_range (-3)) by concrete.
  assert (Hneg : -3 < 0) by lia.
  split; [exact Hwf|]. split; [exact Hv|]. split; [exact Hneg|].
  split; [reflexivity|].
  exact (find_negative signed_sample (-3) Hwf Hv Hneg).
Defined.

Lemma inserts_wf_witness :
  wf (init 5) /\
  Forall (fun op => index_ok (fst op) /\ int_range (snd op))
    [(3, -8); (100, 70000); (3, 1)] /\
  exists st', inserts (init 5) [(3, -8); (100, 70000); (3, 1)] = Ok st' /\
              wf st'.
Proof.
  assert (Hwf : wf (init 5)) by (split; concrete).
  assert (Hops : Forall (fun op => index_ok (fst op) /\ int_range (snd op))
                   [(3, -8); (100, 70000); (3, 1)])
    by (repeat constructor; concrete).
  split; [exact Hwf|]. split; [exact Hops|].
  exact (inserts_wf [(3, -8); (100, 70000); (3, 1)] (init 5) Hwf Hops).
Defined.



(** ** After [deinit] *)

Lemma buf_read_freed j : buf_read [] j = Err OutOfBounds.
Proof.
  unfold buf_read. assert (in_bounds [] j = false) as ->; [|done].
  unfold in_bounds. cbn [length]. change (Z.of_nat 0) with 0.
  destruct (Z.leb_spec 0 j), (Z.ltb_spec j 0); (done || lia).
Qed.

Lemma _get_freed s index e :
  1 <= e <= 31 -> _get s [] index e = Err OutOfBounds.
Proof.
  intros He. unfold _get. pose proof (vals_pos e He).
  rewrite VALS_IN_INT_ok by done. cbn [bind].
  rewrite (to_size_t_id (32 / e)) by (unfold size_t_range; lia).
  rewrite div_size_t_ok, mod_size_t_ok by lia. cbn [bind].
  rewrite shl_int_ok by lia. cbn [bind].
  now rewrite buf_read_freed.
Qed.

Lemma _put_freed index value e :
  1 <= e <= 31 -> _put [] index value e = Err OutOfBounds.
Proof.
  intros He. unfold _put. pose proof (vals_pos e He).
  rewrite VALS_IN_INT_ok by done. cbn [bind].
  rewrite (to_size_t_id (32 / e)) by (unfold size_t_range; lia).
  rewrite div_size_t_ok, mod_size_t_ok by lia. cbn [bind].
  rewrite shl_int_ok by lia. cbn [bind].
  now rewrite buf_read_freed.
Qed.

(** X19.  After [deinit] the container cannot be used before the next
    [init]: on a container that had elements, [get], [find], [max_value]
    and [insert] all access the freed buffer. *)
Theorem use_after_deinit st index value :
  wf st -> 0 < size st -> int_range value ->
  get (deinit st) index = Err OutOfBounds /\
  find (deinit st) value = Err OutOfBounds /\
  max_value (deinit st) = Err OutOfBounds /\
  insert (deinit st) index value = Err OutOfBounds.
Proof.
  intros Hwf Hpos Hv. pose proof (wf_words st Hwf) as Hwords.
  pose proof (wf_lanes_bound st Hwf) as Hbound.
  pose proof Hwf as [He _ Hsz Ha Hc _].
  unfold entropy_ok, capacity_ok, allocated_lanes, BITS_IN_INT, MAX_SIZE in *.
  pose proof (vals_pos _ He) as Hvals. pose proof (vals_fit _ He) as Hfit.
  assert (1 <= Z.of_nat (length (buffer st)) <= 2 ^ 28 + 32) as Hword by nia.
  assert (exists n, Z.to_nat (size st) = S n) as [n Hn]
    by (exists (Z.to_nat (size st) - 1)%nat; lia).
  split; [now apply _get_freed|]. split; [|split].
  - unfold find. cbn [entropy buffer allocated deinit].
    rewrite VALS_IN_INT_ok by done. cbn [bind].
    rewrite shl_int_ok by lia. cbn [bind]. rewrite uint_mask by done.
    rewrite (to_int_id (_ * entropy st)) by (unfold int_range; lia).
    rewrite (to_int_id (32 - _)) by (unfold int_range; lia).
    rewrite shr_int_ok by lia. cbn [bind].
    destruct (find_masks_spec value (entropy st)
                (Z.to_nat (32 / entropy st)) 0 0 0)
      as (p & h & -> & _ & _); try done; try lia.
    { intros k _. apply Z.bits_0. }
    { intros _ k r Hk Hr. rewrite Z.bits_0.
      destruct (Z.ltb_spec k 0); [lia|done]. }
    cbn [bind].
    rewrite (to_size_t_id (allocated st))
      by (unfold size_t_range, SIZEOF_INT in *; lia).
    rewrite Hwords. rewrite (to_int_id (Z.of_nat _)) by (unfold int_range; nia).
    rewrite Nat2Z.id.
    destruct (length (buffer st)) as [|m] eqn:Hl; [lia|]. done.
  - unfold max_value. rewrite shl_int_ok by (unfold BITS_IN_INT; lia).
    cbn [bind size deinit]. rewrite Hn. cbn [max_loop].
    cbn [entropy buffer signed_values deinit].
    now rewrite _get_freed.
  - unfold insert. cbn [signed_values deinit].
    rewrite select_width_selected by done. cbn [bind].
    pose proof (selected_width_range value Hv) as Hve.
    pose proof (vals_pos _ Hve) as Hvals'.
    unfold repack. cbn [entropy size buffer signed_values allocated deinit].
    destruct (_ || _).
    + rewrite VALS_IN_INT_ok by done. cbn [bind].
      rewrite div_int_ok by lia. cbn [bind]. rewrite Hn. cbn [repack_loop].
      now rewrite _get_freed.
    + cbn [bind]. unfold grow.
      cbn [entropy size buffer signed_values allocated deinit].
      destruct (index >=? to_size_t (size st)).
      * rewrite VALS_IN_INT_ok by done. cbn [bind].
        rewrite (to_size_t_id (32 / _)) by (unfold size_t_range; lia).
        rewrite div_size_t_ok by lia. cbn [bind]. unfold memcpy.
        rewrite (to_size_t_id (allocated st))
          by (unfold size_t_range, SIZEOF_INT in *; lia).
        rewrite Hwords, Nat2Z.id. cbn [length].
        destruct (Nat.leb_spec (length (buffer st)) 0) as [Hl|Hl]; [lia|].
        done.
      * cbn [bind entropy size buffer signed_values allocated deinit].
        now rewrite _put_freed.
Qed.

Lemma use_after_deinit_witness :
  wf wide_sample /\ 0 < size wide_sample /\ int_range 4 /\
  get (deinit wide_sample) 0 = Err OutOfBounds /\
  insert (deinit wide_sample) 0 4 = Err OutOfBounds.
Proof.
  assert (Hwf : wf wide_sample) by (split; concrete).
  assert (Hpos : 0 < size wide_sample) by concrete.
  assert (Hv : int_range 4) by concrete.
  split; [exact Hwf|]. split; [exact Hpos|]. split; [exact Hv|].
  pose proof (use_after_deinit wide_sample 0 4 Hwf Hpos Hv) as H.
  split; [exact (proj1 H)|exact (proj2 (proj2 (proj2 H)))].
Defined.
